(** * The node lifecycle of go-seele, and the reward table

    A shallow embedding of [node.Node] (New, Register, Start, startRPC,
    startJSONRPC, startHTTPRPC, Stop, Restart) together with the reward
    lookup exercised by [Test_Reward].

    Everything the node calls but does not define (the p2p server, the
    services behind the [Service] interface, the rpc servers and
    [net.Listen]) is an oracle: its answer may depend on its arguments and on
    the whole history of calls made so far.  The history is a list of events,
    oldest first; every call of an external operation appends one event that
    also records what the call returned. *)

From stdpp Require Import gmap strings list fin_maps pretty.
From Stdlib Require Import ZArith Lia.

Local Open Scope string_scope.
Local Open Scope list_scope.

(** ** Errors *)

(** The sentinel values of package node, and errors made elsewhere
    ([errors.New] in a service, in the p2p server, in net or rpc). *)
Inductive error0 : Type :=
  | ErrConfigIsNull
  | ErrLogIsNull
  | ErrNodeRunning
  | ErrNodeStopped
  | ErrServiceStartFailed
  | ErrServiceStopFailed
  | ErrExt (msg : string).

#[global] Instance error0_eq_dec : EqDecision error0.
Proof. solve_decision. Defined.

(** A Go [error] returned by the node: a plain error, or a [*StopError]
    whose [Services] maps [reflect.TypeOf service] to the error of its Stop. *)
Inductive error : Type :=
  | Err (e : error0)
  | StopError (Services : gmap string error0).

(** ** Data *)

(** p2p.Protocol and p2p.Config are declared outside the sources kept here;
    the node only copies them around, so a name stands for each. *)
Definition Protocol : Type := string.

Record P2PConfig : Type := { p2pTag : string }.

(** [rpc.API]: a namespace and the receiver object registered under it. *)
Record API : Type := { Namespace : string; Receiver : string }.

#[global] Instance API_eq_dec : EqDecision API.
Proof. solve_decision. Defined.

(** Modelled from the spec: [p2p.Server], declared outside the sources kept
    here; "Transport handle: accepts a protocol list at
    construction/configuration time", built by "concatenating, in
    registration order, the protocol lists returned by every registered
    service".  It holds the embedded [Config] and the [Protocols] list, which
    the struct literal [&p2p.Server{Config: n.serverConfig}] leaves nil. *)
Record Server : Type := { srvConfig : P2PConfig; Protocols : list Protocol }.

(** A Go slice of strings: a reference to a backing array and a length. *)
Record slice : Type := { sl_arr : N; sl_len : nat }.

(** [node.Config], with the fields the node reads.  The two slice fields are
    the ones handed to [startHTTPRPC (apis, whitehosts []string, corsList
    []string)]. *)
Record Config : Type := {
  P2P : P2PConfig;
  RPCAddr : string;
  HTTPAddr : string;
  HTTPWhiteHost : slice;
  HTTPCors : slice
}.

(** The part of the Go heap the node shares with its caller: the [Config]
    structs behind [*Config] pointers and the backing arrays of slices. *)
Record Heap : Type := {
  configs : gmap N Config;
  arrays : gmap N (list string)
}.

(** Reading a slice: the first [sl_len] cells of its backing array. *)
Definition readSlice (h : Heap) (s : slice) : list string :=
  take (sl_len s) (default [] (arrays h !! sl_arr s)).

(** ** Events *)

Inductive Listener : Type := RawSocket | HTTP.

#[global] Instance Listener_eq_dec : EqDecision Listener.
Proof. solve_decision. Defined.

Inductive Event : Type :=
  | EvServerStart (srv : Server) (r : option error0)   (* running.Start() *)
  | EvServerStop (srv : Server)                        (* running.Stop() *)
  | EvSvcStart (s : string) (srv : Server) (r : option error0)
  | EvSvcStop (s : string) (r : option error0)
  | EvNewHTTPServer (whitehosts corsList : list string)
  | EvRegisterName (l : Listener) (api : API) (r : option error0)
  | EvHandleHTTP
  | EvListen (l : Listener) (addr : string) (r : option error0)
  | EvServe (l : Listener).
      (* go func() { for { listerner.Accept() ... } }() and
         go http.Serve(listerner, httpHandler): from here on the bound
         listener [l] accepts connections *)

Definition Trace : Type := list Event.

(** ** The Service interface *)

(** A value of interface type [Service]: [sname] tells instances apart,
    [stype] is [reflect.TypeOf] of the value, the other fields are its four
    methods. *)
Record Service : Type := {
  sname : string;
  stype : string;
  svcProtocols : list Protocol;
  svcAPIs : list API;
  svcStart : Server -> Trace -> option error0;
  svcStop : Trace -> option error0
}.

(** The other collaborators. [rpcAccepts] is what [RegisterName] answers for
    a receiver whose namespace is still free. *)
Record Env : Type := {
  p2pStart : Server -> Trace -> option error0;
  rpcAccepts : Listener -> API -> option error0;
  netListen : string -> Trace -> option error0
}.

(** ** The node *)

Record Node : Type := {
  config : N;                    (* config *Config *)
  serverConfig : P2PConfig;
  server : option Server;        (* server *p2p.Server, nil when idle *)
  services : list Service;
  rpcAPIs : list API
}.

Definition set_serverConfig (c : P2PConfig) (n : Node) : Node :=
  {| config := config n; serverConfig := c; server := server n;
     services := services n; rpcAPIs := rpcAPIs n |}.

Definition set_server (s : option Server) (n : Node) : Node :=
  {| config := config n; serverConfig := serverConfig n; server := s;
     services := services n; rpcAPIs := rpcAPIs n |}.

Definition set_services (l : list Service) (n : Node) : Node :=
  {| config := config n; serverConfig := serverConfig n; server := server n;
     services := l; rpcAPIs := rpcAPIs n |}.

(** The two lifecycle states of the spec. *)
Definition Idle (n : Node) : Prop := server n = None.
Definition Running (n : Node) : Prop := exists srv, server n = Some srv.

(** [New]: [confCopy := *conf; conf = &confCopy] copies the struct that
    [conf] points to into a fresh cell and keeps the address of that cell.
    A nil or dangling [conf] panics ([None]). *)
Definition New (h : Heap) (conf : N) : option (Heap * Node) :=
  match configs h !! conf with
  | None => None
  | Some confCopy =>
      let p := fresh (dom (configs h)) in
      Some ({| configs := <[p := confCopy]> (configs h); arrays := arrays h |},
            {| config := p; serverConfig := {| p2pTag := "" |};
               server := None; services := []; rpcAPIs := [] |})
  end.

(** [Register] *)
Definition Register (n : Node) (service : Service) : Node * option error :=
  match server n with
  | Some _ => (n, Some (Err ErrNodeRunning))
  | None => (set_services (services n ++ [service]) n, None)
  end.

Section WithEnv.

Variable env : Env.

(** [for j := 0; j < i; j++ { n.services[j].Stop() }] and
    [for _, service := range n.services { service.Stop() }]: the results
    are dropped. *)
Fixpoint stopQuietly (l : list Service) (t : Trace) : Trace :=
  match l with
  | [] => t
  | service :: l' =>
      stopQuietly l' (t ++ [EvSvcStop (sname service) (svcStop service t)])
  end.

(** The "Start services" loop of [Start]: [all] is [n.services], [i] the
    index of the head of [rest]. *)
Fixpoint startServices (running : Server) (all : list Service) (i : nat)
    (rest : list Service) (t : Trace) : Trace * option error0 :=
  match rest with
  | [] => (t, None)
  | service :: rest' =>
      let r := svcStart service running t in
      let t := t ++ [EvSvcStart (sname service) running r] in
      match r with
      | Some err =>
          let t := stopQuietly (take i all) t in
          let t := t ++ [EvServerStop running] in
          (t, Some err)
      | None => startServices running all (S i) rest' t
      end
  end.

(** Modelled from the spec: [RegisterName] of package rpc, which is not
    among the sources; "each namespace is registered once; registering the
    same namespace twice is a startup error".  [registered] is the set of
    names the handler already holds. *)
Definition RegisterName (l : Listener) (registered : gset string) (api : API)
    : option error0 :=
  if decide (Namespace api ∈ registered)
  then Some (ErrExt (String.append "rpc: service already defined: " (Namespace api)))
  else rpcAccepts env l api.

(** [for _, api := range apis { if err := handler.RegisterName(...) }] *)
Fixpoint registerAll (l : Listener) (registered : gset string)
    (apis : list API) (t : Trace) : Trace * option error0 :=
  match apis with
  | [] => (t, None)
  | api :: apis' =>
      let r := RegisterName l registered api in
      let t := t ++ [EvRegisterName l api r] in
      match r with
      | Some err => (t, Some err)
      | None => registerAll l ({[Namespace api]} ∪ registered) apis' t
      end
  end.

(** [startJSONRPC] *)
Definition startJSONRPC (conf : Config) (apis : list API) (t : Trace)
    : Trace * option error0 :=
  match registerAll RawSocket ∅ apis t with
  | (t, Some err) => (t, Some err)
  | (t, None) =>
      let r := netListen env (RPCAddr conf) t in
      let t := t ++ [EvListen RawSocket (RPCAddr conf) r] in
      match r with
      | Some err => (t, Some err)
      | None => (t ++ [EvServe RawSocket], None)
      end
  end.

(** [startHTTPRPC] *)
Definition startHTTPRPC (conf : Config) (apis : list API)
    (whitehosts corsList : list string) (t : Trace) : Trace * option error0 :=
  let t := t ++ [EvNewHTTPServer whitehosts corsList] in
  match registerAll HTTP ∅ apis t with
  | (t, Some err) => (t, Some err)
  | (t, None) =>
      let t := t ++ [EvHandleHTTP] in
      let r := netListen env (HTTPAddr conf) t in
      let t := t ++ [EvListen HTTP (HTTPAddr conf) r] in
      match r with
      | Some err => (t, Some err)
      | None => (t ++ [EvServe HTTP], None)
      end
  end.

(** The aggregate API set: [apis = append(apis, service.APIs()...)]. *)
Definition aggregateAPIs (l : list Service) : list API :=
  fold_left (fun apis service => apis ++ svcAPIs service) l [].

(** [startRPC] *)
Definition startRPC (h : Heap) (l : list Service) (conf : Config) (t : Trace)
    : Trace * option error0 :=
  let apis := aggregateAPIs l in
  match startJSONRPC conf apis t with
  | (t, Some err) => (t, Some err)
  | (t, None) =>
      startHTTPRPC conf apis (readSlice h (HTTPWhiteHost conf))
        (readSlice h (HTTPCors conf)) t
  end.

(** The server [Start] builds: [running.Protocols = append(...)]. *)
Definition buildServer (c : P2PConfig) (l : list Service) : Server :=
  fold_left
    (fun running service =>
       {| srvConfig := srvConfig running;
          Protocols := Protocols running ++ svcProtocols service |})
    l {| srvConfig := c; Protocols := [] |}.

(** [Start].  [None] is the panic of dereferencing a nil [n.config]. *)
Definition Start (h : Heap) (n : Node) (t : Trace)
    : option (Node * Trace * option error) :=
  match server n with
  | Some _ => Some (n, t, Some (Err ErrNodeRunning))
  | None =>
      match configs h !! config n with
      | None => None
      | Some conf =>
          let n := set_serverConfig (P2P conf) n in
          let running := buildServer (serverConfig n) (services n) in
          let r := p2pStart env running t in
          let t := t ++ [EvServerStart running r] in
          match r with
          | Some _ => Some (n, t, Some (Err ErrServiceStartFailed))
          | None =>
              match startServices running (services n) 0 (services n) t with
              | (t, Some err) => Some (n, t, Some (Err err))
              | (t, None) =>
                  match startRPC h (services n) conf t with
                  | (t, Some err) =>
                      let t := stopQuietly (services n) t in
                      let t := t ++ [EvServerStop running] in
                      Some (n, t, Some (Err err))
                  | (t, None) => Some (set_server (Some running) n, t, None)
                  end
              end
          end
      end
  end.

(** The loop of [Stop] that fills [stopErr.Services]. *)
Fixpoint stopServices (l : list Service) (t : Trace)
    (m : gmap string error0) : Trace * gmap string error0 :=
  match l with
  | [] => (t, m)
  | service :: l' =>
      let r := svcStop service t in
      let t := t ++ [EvSvcStop (sname service) r] in
      match r with
      | Some err => stopServices l' t (<[stype service := err]> m)
      | None => stopServices l' t m
      end
  end.

(** [Stop] *)
Definition Stop (n : Node) (t : Trace) : Node * Trace * option error :=
  match server n with
  | None => (n, t, Some (Err ErrNodeStopped))
  | Some srv =>
      let '(t, m) := stopServices (services n) t ∅ in
      let t := t ++ [EvServerStop srv] in
      let n := set_server None (set_services [] n) in
      if decide (0 < size m) then (n, t, Some (StopError m))
      else (n, t, None)
  end.

(** [Restart] *)
Definition Restart (h : Heap) (n : Node) (t : Trace)
    : option (Node * Trace * option error) :=
  match Stop n t with
  | (n, t, Some err) => Some (n, t, Some err)
  | (n, t, None) =>
      match Start h n t with
      | None => None
      | Some (n, t, Some err) => Some (n, t, Some err)
      | Some (n, t, None) => Some (n, t, None)
      end
  end.

End WithEnv.

(** ** Shapes of traces *)

(** The events of starting every service of [l] successfully, of stopping
    the services of [l] with answers [outs], and of registering every api of
    [apis] successfully on listener [k]. *)
Definition started (running : Server) (l : list Service) : list Event :=
  map (fun s => EvSvcStart (sname s) running None) l.

Definition stopped (l : list Service) (outs : list (option error0))
    : list Event :=
  zip_with (fun s r => EvSvcStop (sname s) r) l outs.

Definition registered (k : Listener) (apis : list API) : list Event :=
  map (fun api => EvRegisterName k api None) apis.

(** [outs] are the answers the services of [l] give when their Stop methods
    are called one after the other from history [t]. *)
Definition answersOf (l : list Service) (t : Trace)
    (outs : list (option error0)) : Prop :=
  length outs = length l /\
  forall k s, l !! k = Some s ->
    outs !! k = Some (svcStop s (t ++ take k (stopped l outs))).

(** Every service of [l] answers nil when the Start methods are called one
    after the other from history [t]. *)
Definition allStart (running : Server) (l : list Service) (t : Trace) : Prop :=
  forall k s, l !! k = Some s ->
    svcStart s running (t ++ started running (take k l)) = None.

Fixpoint stopAnswers (l : list Service) (t : Trace) : list (option error0) :=
  match l with
  | [] => []
  | s :: l' =>
      let r := svcStop s t in
      r :: stopAnswers l' (t ++ [EvSvcStop (sname s) r])
  end.

(** No service of type [ty] in [l] failed to stop, and: some service of
    type [ty] failed to stop with [e] and none of that type failed after
    it. *)
Definition noFailure (l : list Service) (outs : list (option error0))
    (ty : string) : Prop :=
  forall k s, l !! k = Some s -> stype s = ty -> outs !! k = Some None.

Definition failedLast (l : list Service) (outs : list (option error0))
    (ty : string) (e : error0) : Prop :=
  exists k s,
    l !! k = Some s /\ stype s = ty /\ outs !! k = Some (Some e) /\
    forall k' s', k < k' -> l !! k' = Some s' -> stype s' = ty ->
      outs !! k' = Some None.

(** ** Listener order *)

(** In [evs], every api of [apis] is registered on listener [k] before
    listener [k'] begins to accept. *)
Definition registersBeforeServing (k k' : Listener) (apis : list API)
    (evs : list Event) : Prop :=
  forall api j, api ∈ apis -> evs !! j = Some (EvServe k') ->
    exists i, i < j /\ evs !! i = Some (EvRegisterName k api None).

(** Whenever this Start succeeds, both listeners have every namespace of the
    aggregate API set registered before either begins to accept. *)
Definition allRegisteredFirst (env : Env) (h : Heap) (n : Node) (t : Trace)
    : Prop :=
  forall n' t', Start env h n t = Some (n', t', None) ->
    forall k k',
      registersBeforeServing k k' (aggregateAPIs (services n))
        (drop (length t) t').

(** ** The caller's hold on its config *)

(** What the caller of [New] can still do to the config it passed in:
    assign to a field of the struct, or assign to an element of one of its
    slices. *)
Inductive Mutation : Type :=
  | SetP2P (v : P2PConfig)                      (* conf.P2P = v *)
  | SetRPCAddr (v : string)                     (* conf.RPCAddr = v *)
  | SetHTTPAddr (v : string)                    (* conf.HTTPAddr = v *)
  | SetHTTPWhiteHost (v : slice)                (* conf.HTTPWhiteHost = v *)
  | SetHTTPCors (v : slice)                     (* conf.HTTPCors = v *)
  | SetHTTPWhiteHostAt (i : nat) (v : string)   (* conf.HTTPWhiteHost[i] = v *)
  | SetHTTPCorsAt (i : nat) (v : string).       (* conf.HTTPCors[i] = v *)

Definition isFieldAssignment (mu : Mutation) : bool :=
  match mu with
  | SetHTTPWhiteHostAt _ _ | SetHTTPCorsAt _ _ => false
  | _ => true
  end.

Definition storeElem (h : Heap) (s : slice) (i : nat) (v : string)
    : option Heap :=
  if decide (i < sl_len s) then
    match arrays h !! sl_arr s with
    | Some a =>
        Some {| configs := configs h;
                arrays := <[sl_arr s := <[i := v]> a]> (arrays h) |}
    | None => None
    end
  else None.

Definition assignField (c : Config) (mu : Mutation) : Config :=
  match mu with
  | SetP2P v =>
      {| P2P := v; RPCAddr := RPCAddr c; HTTPAddr := HTTPAddr c;
         HTTPWhiteHost := HTTPWhiteHost c; HTTPCors := HTTPCors c |}
  | SetRPCAddr v =>
      {| P2P := P2P c; RPCAddr := v; HTTPAddr := HTTPAddr c;
         HTTPWhiteHost := HTTPWhiteHost c; HTTPCors := HTTPCors c |}
  | SetHTTPAddr v =>
      {| P2P := P2P c; RPCAddr := RPCAddr c; HTTPAddr := v;
         HTTPWhiteHost := HTTPWhiteHost c; HTTPCors := HTTPCors c |}
  | SetHTTPWhiteHost v =>
      {| P2P := P2P c; RPCAddr := RPCAddr c; HTTPAddr := HTTPAddr c;
         HTTPWhiteHost := v; HTTPCors := HTTPCors c |}
  | SetHTTPCors v =>
      {| P2P := P2P c; RPCAddr := RPCAddr c; HTTPAddr := HTTPAddr c;
         HTTPWhiteHost := HTTPWhiteHost c; HTTPCors := v |}
  | SetHTTPWhiteHostAt _ _ | SetHTTPCorsAt _ _ => c
  end.

(** One mutation through the caller's pointer [conf]; [None] is a panic
    (nil pointer, index out of range). *)
Definition mutate (h : Heap) (conf : N) (mu : Mutation) : option Heap :=
  match configs h !! conf with
  | None => None
  | Some c =>
      match mu with
      | SetHTTPWhiteHostAt i v => storeElem h (HTTPWhiteHost c) i v
      | SetHTTPCorsAt i v => storeElem h (HTTPCors c) i v
      | _ =>
          Some {| configs := <[conf := assignField c mu]> (configs h);
                  arrays := arrays h |}
      end
  end.

Fixpoint mutates (h : Heap) (conf : N) (mus : list Mutation) : option Heap :=
  match mus with
  | [] => Some h
  | mu :: mus' =>
      match mutate h conf mu with
      | Some h' => mutates h' conf mus'
      | None => None
      end
  end.

(** The config a node holds, read through its pointer and its slices. *)
Record ConfigView : Type := {
  vP2P : P2PConfig;
  vRPCAddr : string;
  vHTTPAddr : string;
  vHTTPWhiteHost : list string;
  vHTTPCors : list string
}.

Definition storedConfig (h : Heap) (n : Node) : option ConfigView :=
  match configs h !! config n with
  | None => None
  | Some c =>
      Some {| vP2P := P2P c; vRPCAddr := RPCAddr c; vHTTPAddr := HTTPAddr c;
              vHTTPWhiteHost := readSlice h (HTTPWhiteHost c);
              vHTTPCors := readSlice h (HTTPCors c) |}
  end.

(** The node made by [New h conf] does not notice the mutations [mus] of the
    caller's config: its stored config reads the same, and every later Start
    of it (whatever was registered meanwhile) does the same. *)
Definition isolatedFrom (h : Heap) (conf : N) (mus : list Mutation) : Prop :=
  forall h1 n h2,
    New h conf = Some (h1, n) -> mutates h1 conf mus = Some h2 ->
    storedConfig h2 n = storedConfig h1 n /\
    forall env n' t, config n' = config n ->
      Start env h2 n' t = Start env h1 n' t.

(** ** Rewards *)

Section Reward.

(** The table and the two constants of package pow are not among the
    sources; they are parameters here. *)
Variable rewardTable : list Z.
Variable tailReward : Z.
Variable blockNumberPerEra : Z.

(** Modelled from the spec: [GetReward], of which only the test
    [Test_Reward] is among the sources; "era = floor(blockNumber /
    blockNumberPerEra), reward = rewardTable[era] for era <
    len(rewardTable), else a fixed tail reward". *)
Definition GetReward (blockNumber : Z) : Z :=
  let era := (blockNumber / blockNumberPerEra)%Z in
  if decide (era < Z.of_nat (length rewardTable))%Z
  then default tailReward (rewardTable !! Z.to_nat era)
  else tailReward.

End Reward.

(** ** Sample nodes *)

Module Sample.

(** Collaborators that never fail. *)
Definition env : Env :=
  {| p2pStart := fun _ _ => None;
     rpcAccepts := fun _ _ => None;
     netListen := fun _ _ => None |}.

(** A p2p server that cannot start. *)
Definition envNoTransport : Env :=
  {| p2pStart := fun _ _ => Some (ErrExt "listen udp: address in use");
     rpcAccepts := fun _ _ => None;
     netListen := fun _ _ => None |}.

Definition mkService (name type : string) (apis : list API)
    (start stop : option error0) : Service :=
  {| sname := name; stype := type; svcProtocols := [name];
     svcAPIs := apis;
     svcStart := fun _ _ => start; svcStop := fun _ => stop |}.

Definition chainAPI : API := {| Namespace := "chain"; Receiver := "X" |}.
Definition poolAPI : API := {| Namespace := "pool"; Receiver := "Y" |}.
Definition chainAPI' : API := {| Namespace := "chain"; Receiver := "Z" |}.

Definition E : error0 := ErrExt "B cannot start".
Definition F : error0 := ErrExt "B cannot stop".

Definition A : Service := mkService "A" "*a.Service" [chainAPI] None None.
Definition B : Service := mkService "B" "*b.Service" [poolAPI] (Some E) None.
Definition B' : Service := mkService "B" "*b.Service" [poolAPI] None (Some F).
Definition C : Service := mkService "C" "*c.Service" [] None None.
Definition D : Service := mkService "D" "*d.Service" [chainAPI'] None None.

(** The caller's config, at address 1, with its two slices. *)
Definition conf : Config :=
  {| P2P := {| p2pTag := "p2p" |};
     RPCAddr := "127.0.0.1:55027"; HTTPAddr := "127.0.0.1:65027";
     HTTPWhiteHost := {| sl_arr := 1; sl_len := 1 |};
     HTTPCors := {| sl_arr := 2; sl_len := 1 |} |}.

Definition heap0 : Heap :=
  {| configs := {[ 1%N := conf ]};
     arrays := {[ 1%N := ["localhost"]; 2%N := ["https://seele.example"] ]} |}.

(** [New(&conf)], then [Register] for each service of a list. *)
Definition heap : Heap :=
  match New heap0 1 with Some (h, _) => h | None => heap0 end.

Definition node0 : Node :=
  match New heap0 1 with
  | Some (_, n) => n
  | None =>
      {| config := 0; serverConfig := {| p2pTag := "" |}; server := None;
         services := []; rpcAPIs := [] |}
  end.

Definition nodeWith (l : list Service) : Node :=
  fold_left (fun n s => (Register n s).1) l node0.

(** The node after a successful Start with services [l]. *)
Definition afterStart (l : list Service) : Node * Trace :=
  match Start env heap (nodeWith l) [] with
  | Some (n, t, _) => (n, t)
  | None => (nodeWith l, [])
  end.

Definition table : list Z := [50; 25; 12]%Z.

End Sample.

(** ** Restart, as the spec words it *)

(** "Stop() followed by Start(); if Stop() fails, Start() is not attempted
    and the stop error is surfaced." *)
Definition StopThenStart (env : Env) (h : Heap) (n : Node) (t : Trace)
    : option (Node * Trace * option error) :=
  match Stop n t with
  | (n1, t1, Some err) => Some (n1, t1, Some err)
  | (n1, t1, None) => Start env h n1 t1
  end.

Module SampleHeaps.

(** The heap after the caller of [New] went on to mutate its config. *)
Definition after (mus : list Mutation) : Heap :=
  default Sample.heap (mutates Sample.heap 1 mus).

End SampleHeaps.

(** ** Reading a history *)

(** The services whose Start answered nil, and the services whose Stop was
    called, in the order of the calls. *)
Definition startedNames (evs : list Event) : list string :=
  omap (fun e => match e with EvSvcStart s _ None => Some s | _ => None end)
    evs.

Definition stoppedNames (evs : list Event) : list string :=
  omap (fun e => match e with EvSvcStop s _ => Some s | _ => None end) evs.

(** The calls made by [startRPC], and those made by [startHTTPRPC]. *)
Definition isRPCEvent (e : Event) : Prop :=
  match e with
  | EvNewHTTPServer _ _ | EvRegisterName _ _ _ | EvHandleHTTP
  | EvListen _ _ _ | EvServe _ => True
  | _ => False
  end.

Definition isHTTPEvent (e : Event) : Prop :=
  match e with
  | EvNewHTTPServer _ _ | EvRegisterName HTTP _ _ | EvHandleHTTP
  | EvListen HTTP _ _ | EvServe HTTP => True
  | _ => False
  end.

(** [Register] called for each service of [l] in turn, with the errors it
    returned. *)
Fixpoint RegisterAll (n : Node) (l : list Service)
    : Node * list (option error) :=
  match l with
  | [] => (n, [])
  | service :: l' =>
      let '(n1, r) := Register n service in
      let '(n2, rs) := RegisterAll n1 l' in
      (n2, r :: rs)
  end.

(** The config behind a pointer, read through its slices. *)
Definition configAt (h : Heap) (p : N) : option ConfigView :=
  match configs h !! p with
  | None => None
  | Some c =>
      Some {| vP2P := P2P c; vRPCAddr := RPCAddr c; vHTTPAddr := HTTPAddr c;
              vHTTPWhiteHost := readSlice h (HTTPWhiteHost c);
              vHTTPCors := readSlice h (HTTPCors c) |}
  end.

(** ** The debug API *)

Section DebugAPI.

(** [common.Address], [*types.Transaction] and the value [rpcOutputTx]
    makes of a transaction are declared outside the sources kept here, as
    are [Address.ToHex] and [rpcOutputTx] themselves: they are parameters.
    [nilOut] is what [make] puts in a fresh slice. *)
Context {Address : Type} `{Countable Address}.
Variables Tx Out : Type.
Variable ToHex : Address -> string.
Variable rpcOutputTx : Tx -> Out.
Variable nilOut : Out.

(** [for i, tran := range txs { trans[i] = rpcOutputTx(tran) }], from
    index [i] on. *)
Fixpoint fillTrans (i : nat) (txs : list Tx) (trans : list Out) : list Out :=
  match txs with
  | [] => trans
  | tran :: txs' => fillTrans (S i) txs' (<[i := rpcOutputTx tran]> trans)
  end.

(** [trans := make([]map[string]interface{}, len(txs))] and the loop. *)
Definition makeTrans (txs : list Tx) : list Out :=
  fillTrans 0 txs (replicate (length txs) nilOut).

(** [for adress, txs := range data { ...; content[adress.ToHex()] = trans }].
    Go ranges over a map in no fixed order; [order] is the order of this
    run, some arrangement of the entries of [data]. *)
Definition fillContent (order : list (Address * list Tx))
    : gmap string (list Out) :=
  fold_left
    (fun content '(adress, txs) => <[ToHex adress := makeTrans txs]> content)
    order ∅.

(** [GetTxPoolContent]: the value left in [*result] and the error
    returned.  [data] is [txPool.GetProcessableTransactions()]. *)
Definition GetTxPoolContent (order : list (Address * list Tx))
    : gmap string (list Out) * option error0 :=
  (fillContent order, None).

End DebugAPI.

Module SampleDebug.

(** A pool with two senders; addresses are numbers printed in decimal. *)
Definition pool : gmap N (list string) :=
  {[ 7%N := ["tx1"; "tx2"]; 9%N := ["tx3"] ]}.

Definition output (tx : string) : string := String.append "out:" tx.

End SampleDebug.

Module SampleEnvs.

(** The HTTP port is taken: [net.Listen] fails on the HTTP address only. *)
Definition envHTTPBusy : Env :=
  {| p2pStart := fun _ _ => None;
     rpcAccepts := fun _ _ => None;
     netListen := fun addr _ =>
       if String.eqb addr "127.0.0.1:65027"
       then Some (ErrExt "listen tcp 127.0.0.1:65027: address already in use")
       else None |}.

End SampleEnvs.

Section BlockAPI.

(** The chain, its blocks and the four helpers the two block methods call
    ([getBlock], [common.Serialize], [hexutil.BytesToHex], [spew.Sdump]) are
    declared outside the sources kept here: they are parameters.  A Go
    result [(v, err)] is [inl v] when [err] is nil and [inr err]
    otherwise. *)
Variables Chain Block : Type.
Variable getBlock : Chain -> Z -> Block + error0.
Variable Serialize : Block -> list N + error0.
Variable BytesToHex : list N -> string.
Variable Sdump : Block -> string.

(** [GetBlockRlp]: [chain] is [api.s.chain], [height] is [*height],
    [result] is what [*result] holds before the call; returned are what it
    holds after the call, and the error. *)
Definition GetBlockRlp (chain : Chain) (height : Z) (result : string)
    : string * option error0 :=
  match getBlock chain height with
  | inr err => (result, Some err)
  | inl block =>
      match Serialize block with
      | inr err => (result, Some err)
      | inl blockRlp => (BytesToHex blockRlp, None)
      end
  end.

(** [PrintBlock] *)
Definition PrintBlock (chain : Chain) (height : Z) (result : string)
    : string * option error0 :=
  match getBlock chain height with
  | inr err => (result, Some err)
  | inl block => (Sdump block, None)
  end.

End BlockAPI.

Module SampleChain.

(** A chain of three blocks, each block a list of bytes; height -1 is the
    head; a block that holds a byte above 255 does not serialize. *)
Definition chain : list (list N) := [[1; 2]; [3]; [300]]%N.

Definition getBlock (c : list (list N)) (height : Z) : list N + error0 :=
  if decide (height = -1)%Z then
    match last c with
    | Some b => inl b
    | None => inr (ErrExt "empty chain")
    end
  else
    match c !! Z.to_nat height with
    | Some b => if decide (0 <= height)%Z then inl b
                else inr (ErrExt "block not found")
    | None => inr (ErrExt "block not found")
    end.

Definition Serialize (b : list N) : list N + error0 :=
  if decide (Forall (fun x => x < 256)%N b) then inl b
  else inr (ErrExt "cannot serialize").

Definition BytesToHex (b : list N) : string :=
  String.append "0x" (String.concat "" (pretty <$> b)).

Definition Sdump (b : list N) : string :=
  String.concat " " (pretty <$> b).

End SampleChain.

(* ================================================================== *)
(** * Properties *)

Lemma stopAnswers_length l t : length (stopAnswers l t) = length l.
Proof.
  revert t; induction l as [|s l IH]; intros t; simpl; [done|].
  by rewrite IH.
Qed.

Lemma stopAnswers_answersOf l t : answersOf l t (stopAnswers l t).
Proof.
  split; [apply stopAnswers_length|].
  revert t; induction l as [|s l IH]; intros t k s' Hk; [done|].
  destruct k as [|k]; simpl in *.
  - injection Hk as <-. by rewrite app_nil_r.
  - rewrite (IH _ _ _ Hk). do 2 f_equal.
    by rewrite <- app_assoc.
Qed.

Lemma answersOf_unique l t outs : answersOf l t outs -> outs = stopAnswers l t.
Proof.
  revert t outs; induction l as [|s l IH]; intros t outs [Hlen Hans].
  - by destruct outs.
  - destruct outs as [|r outs]; [done|]. simpl in *.
    pose proof (Hans 0 s eq_refl) as H0. simpl in H0.
    rewrite app_nil_r in H0. injection H0 as ->.
    f_equal. apply IH. split; [lia|].
    intros k s' Hk. pose proof (Hans (S k) s' Hk) as Hk'. simpl in Hk'.
    rewrite Hk'. by rewrite <- app_assoc.
Qed.

Section TraceLemmas.

Variable env : Env.

Lemma stopQuietly_eq l t : stopQuietly l t = t ++ stopped l (stopAnswers l t).
Proof.
  revert t; induction l as [|s l IH]; intros t; simpl.
  - by rewrite app_nil_r.
  - rewrite IH. by rewrite <- app_assoc.
Qed.

Lemma stopServices_trace l t m :
  (stopServices l t m).1 = t ++ stopped l (stopAnswers l t).
Proof.
  revert t m; induction l as [|s l IH]; intros t m; simpl.
  - by rewrite app_nil_r.
  - destruct (svcStop s t); rewrite IH; by rewrite <- app_assoc.
Qed.

(** The loop over [rest] when every service starts. *)
Lemma startServices_ok running all i rest t :
  allStart running rest t ->
  startServices running all i rest t = (t ++ started running rest, None).
Proof.
  revert i t; induction rest as [|s rest IH]; intros i t Hall; simpl.
  - by rewrite app_nil_r.
  - pose proof (Hall 0 s eq_refl) as H0. simpl in H0.
    rewrite app_nil_r in H0. rewrite H0.
    rewrite IH; [by rewrite <- app_assoc|].
    intros k s' Hk. specialize (Hall (S k) s' Hk). simpl in Hall.
    by rewrite <- app_assoc.
Qed.

(** The loop over [pre ++ B :: post] when the services of [pre] start and
    [B] does not. *)
Lemma startServices_fail running all i pre B post t E :
  allStart running pre t ->
  svcStart B running (t ++ started running pre) = Some E ->
  startServices running all i (pre ++ B :: post) t =
    (stopQuietly (take (i + length pre) all)
       (t ++ started running pre ++ [EvSvcStart (sname B) running (Some E)])
     ++ [EvServerStop running], Some E).
Proof.
  revert i t; induction pre as [|s pre IH]; intros i t Hall HB; simpl in *.
  - rewrite app_nil_r in HB. rewrite HB. by rewrite Nat.add_0_r.
  - pose proof (Hall 0 s eq_refl) as H0. simpl in H0.
    rewrite app_nil_r in H0. rewrite H0.
    rewrite IH.
    + rewrite <- app_assoc. simpl. by rewrite Nat.add_succ_r.
    + intros k s' Hk. specialize (Hall (S k) s' Hk). simpl in Hall.
      by rewrite <- app_assoc.
    + by rewrite <- app_assoc.
Qed.

(** Conversely, a loop that returns nil started everything. *)
Lemma startServices_None running all i rest t t' :
  startServices running all i rest t = (t', None) ->
  allStart running rest t /\ t' = t ++ started running rest.
Proof.
  revert i t; induction rest as [|s rest IH]; intros i t H; simpl in *.
  - injection H as <-. split; [by intros k s Hk|by rewrite app_nil_r].
  - destruct (svcStart s running t) eqn:Hs; [done|].
    apply IH in H as [Hall ->]. split.
    + intros [|k] s' Hk; simpl in *.
      * injection Hk as <-. by rewrite app_nil_r.
      * specialize (Hall k s' Hk). by rewrite <- app_assoc in Hall.
    + by rewrite <- app_assoc.
Qed.

(** A registration loop that returns nil registered every api. *)
Lemma registerAll_None k reg apis t t' :
  registerAll env k reg apis t = (t', None) -> t' = t ++ registered k apis.
Proof.
  revert reg t; induction apis as [|api apis IH]; intros reg t H; simpl in *.
  - injection H as <-. by rewrite app_nil_r.
  - destruct (RegisterName env k reg api) eqn:Hr; [done|].
    apply IH in H as ->. by rewrite <- app_assoc.
Qed.

(** A namespace that is already taken, or that occurs twice, makes the
    registration loop fail. *)
Lemma registerAll_duplicate k reg apis t :
  (exists api, api ∈ apis /\ Namespace api ∈ reg) \/
  ~ NoDup (map Namespace apis) ->
  exists t' e, registerAll env k reg apis t = (t', Some e).
Proof.
  revert reg t; induction apis as [|api apis IH]; intros reg t H; simpl.
  - destruct H as [(api & Hin & _)|H].
    + by apply elem_of_nil in Hin.
    + destruct H. constructor.
  - destruct (RegisterName env k reg api) as [e|] eqn:Hr; [by eauto|].
    unfold RegisterName in Hr.
    destruct (decide (Namespace api ∈ reg)) as [|Hfree]; [done|].
    apply IH. destruct H as [(a & Hin & Hreg)|H].
    + apply elem_of_cons in Hin as [->|Hin]; [done|].
      left. exists a. split; [done|]. set_solver.
    + destruct (decide (Namespace api ∈ map Namespace apis)) as [Hdup|Hnew].
      * left. apply list_elem_of_fmap in Hdup as (a & Ha & Hin).
        exists a. split; [done|]. set_solver.
      * right. intros Hnd. apply H. simpl. by constructor.
Qed.

End TraceLemmas.

(** ** What Start builds *)

Lemma buildServer_fold c ps l :
  fold_left
    (fun running service =>
       {| srvConfig := srvConfig running;
          Protocols := Protocols running ++ svcProtocols service |})
    l {| srvConfig := c; Protocols := ps |} =
  {| srvConfig := c; Protocols := ps ++ concat (map svcProtocols l) |}.
Proof.
  revert ps; induction l as [|s l IH]; intros ps; simpl.
  - by rewrite app_nil_r.
  - rewrite IH. by rewrite <- app_assoc.
Qed.

(** The transport gets the protocol lists of the services, concatenated in
    registration order. *)
Lemma buildServer_eq c l :
  buildServer c l =
  {| srvConfig := c; Protocols := concat (map svcProtocols l) |}.
Proof. unfold buildServer. by rewrite buildServer_fold. Qed.

Lemma aggregateAPIs_fold acc l :
  fold_left (fun apis service => apis ++ svcAPIs service) l acc =
  acc ++ concat (map svcAPIs l).
Proof.
  revert acc; induction l as [|s l IH]; intros acc; simpl.
  - by rewrite app_nil_r.
  - rewrite IH. by rewrite <- app_assoc.
Qed.

Lemma aggregateAPIs_eq l : aggregateAPIs l = concat (map svcAPIs l).
Proof. unfold aggregateAPIs. by rewrite aggregateAPIs_fold. Qed.

Section Lifecycle.

Variable env : Env.

(** ** Start *)

(** Start on a running node. *)
Lemma Start_running h n t :
  Running n -> Start env h n t = Some (n, t, Some (Err ErrNodeRunning)).
Proof. intros [srv Hsrv]. unfold Start. by rewrite Hsrv. Qed.

Lemma Register_running n service :
  Running n -> Register n service = (n, Some (Err ErrNodeRunning)).
Proof. intros [srv Hsrv]. unfold Register. by rewrite Hsrv. Qed.

(** Start when the service [B] fails after the services [pre] started. *)
Lemma Start_rollback_eq h n t conf pre B post E :
  Idle n -> configs h !! config n = Some conf ->
  services n = pre ++ B :: post ->
  p2pStart env (buildServer (P2P conf) (services n)) t = None ->
  allStart (buildServer (P2P conf) (services n)) pre
    (t ++ [EvServerStart (buildServer (P2P conf) (services n)) None]) ->
  svcStart B (buildServer (P2P conf) (services n))
    (t ++ [EvServerStart (buildServer (P2P conf) (services n)) None]
       ++ started (buildServer (P2P conf) (services n)) pre) = Some E ->
  Start env h n t =
    Some (set_serverConfig (P2P conf) n,
          t ++ [EvServerStart (buildServer (P2P conf) (services n)) None]
            ++ started (buildServer (P2P conf) (services n)) pre
            ++ [EvSvcStart (sname B)
                  (buildServer (P2P conf) (services n)) (Some E)]
            ++ stopped pre
                 (stopAnswers pre
                    (t ++ [EvServerStart
                             (buildServer (P2P conf) (services n)) None]
                       ++ started (buildServer (P2P conf) (services n)) pre
                       ++ [EvSvcStart (sname B)
                             (buildServer (P2P conf) (services n))
                             (Some E)]))
            ++ [EvServerStop (buildServer (P2P conf) (services n))],
          Some (Err E)).
Proof.
  intros Hidle Hconf Hsvc Hp2p Hpre HB.
  unfold Start. rewrite Hidle, Hconf. simpl.
  set (running := buildServer (P2P conf) (services n)) in *.
  rewrite Hp2p.
  rewrite Hsvc at 2.
  rewrite (startServices_fail running (services n) 0 pre B post _ E Hpre).
  2:{ by rewrite <- app_assoc. }
  simpl. rewrite Hsvc at 1. rewrite take_app_length.
  rewrite stopQuietly_eq.
  repeat (rewrite <- ?app_assoc; simpl). done.
Qed.

(** Start when the rpc listeners fail after every service started. *)
Lemma Start_rpc_rollback_eq h n t conf t2 e :
  Idle n -> configs h !! config n = Some conf ->
  p2pStart env (buildServer (P2P conf) (services n)) t = None ->
  allStart (buildServer (P2P conf) (services n)) (services n)
    (t ++ [EvServerStart (buildServer (P2P conf) (services n)) None]) ->
  startRPC env h (services n) conf
    (t ++ [EvServerStart (buildServer (P2P conf) (services n)) None]
       ++ started (buildServer (P2P conf) (services n)) (services n))
    = (t2, Some e) ->
  Start env h n t =
    Some (set_serverConfig (P2P conf) n,
          t2 ++ stopped (services n) (stopAnswers (services n) t2)
             ++ [EvServerStop (buildServer (P2P conf) (services n))],
          Some (Err e)).
Proof.
  intros Hidle Hconf Hp2p Hall Hrpc.
  unfold Start. rewrite Hidle, Hconf. simpl.
  set (running := buildServer (P2P conf) (services n)) in *.
  rewrite Hp2p.
  rewrite (startServices_ok running (services n) 0 (services n) _ Hall).
  rewrite <- app_assoc. rewrite Hrpc.
  rewrite stopQuietly_eq. by rewrite <- app_assoc.
Qed.

(** What a successful Start did. *)
Lemma Start_success h n t n' t' :
  Start env h n t = Some (n', t', None) ->
  Idle n /\
  exists conf,
    configs h !! config n = Some conf /\
    n' = set_server (Some (buildServer (P2P conf) (services n)))
           (set_serverConfig (P2P conf) n) /\
    t' = t ++ [EvServerStart (buildServer (P2P conf) (services n)) None]
           ++ started (buildServer (P2P conf) (services n)) (services n)
           ++ registered RawSocket (aggregateAPIs (services n))
           ++ [EvListen RawSocket (RPCAddr conf) None; EvServe RawSocket;
               EvNewHTTPServer (readSlice h (HTTPWhiteHost conf))
                 (readSlice h (HTTPCors conf))]
           ++ registered HTTP (aggregateAPIs (services n))
           ++ [EvHandleHTTP; EvListen HTTP (HTTPAddr conf) None;
               EvServe HTTP].
Proof.
  unfold Start. destruct (server n) eqn:Hsrv; [done|].
  destruct (configs h !! config n) as [conf|] eqn:Hconf; [|done]. simpl.
  set (running := buildServer (P2P conf) (services n)).
  destruct (p2pStart env running t) eqn:Hp2p; [done|].
  destruct (startServices running (services n) 0 (services n) _)
    as [t1 [err|]] eqn:Hstart; [done|].
  apply startServices_None in Hstart as [_ ->].
  destruct (startRPC env h (services n) conf _) as [t2 [err|]] eqn:Hrpc;
    [done|].
  intros [= <- <-]. split; [done|]. exists conf. split; [done|].
  split; [done|].
  unfold startRPC in Hrpc.
  destruct (startJSONRPC env conf _ _) as [t3 [err|]] eqn:Hjson; [done|].
  unfold startJSONRPC in Hjson.
  destruct (registerAll env RawSocket ∅ _ _) as [t4 [err|]] eqn:Hreg1;
    [done|].
  apply registerAll_None in Hreg1 as ->.
  destruct (netListen env (RPCAddr conf) _) eqn:Hl1; [done|].
  injection Hjson as <-.
  unfold startHTTPRPC in Hrpc.
  destruct (registerAll env HTTP ∅ _ _) as [t5 [err|]] eqn:Hreg2; [done|].
  apply registerAll_None in Hreg2 as ->.
  destruct (netListen env (HTTPAddr conf) _) eqn:Hl2; [done|].
  injection Hrpc as <-.
  repeat (rewrite <- ?app_assoc; simpl). done.
Qed.

Lemma Start_success_Running h n t n' t' :
  Start env h n t = Some (n', t', None) -> Running n'.
Proof.
  intros H. apply Start_success in H as (_ & conf & _ & -> & _).
  by eexists.
Qed.

(** Two services that declare the same namespace make [startRPC] fail. *)
Lemma startRPC_duplicate h l conf t :
  ~ NoDup (map Namespace (aggregateAPIs l)) ->
  exists t' e, startRPC env h l conf t = (t', Some e).
Proof.
  intros Hdup. unfold startRPC, startJSONRPC.
  destruct (registerAll_duplicate env RawSocket ∅ (aggregateAPIs l) t)
    as (t' & e & ->); [by right|].
  by eauto.
Qed.

End Lifecycle.

(** ** Stop *)

Lemma noFailure_cons s l r outs ty :
  noFailure (s :: l) (r :: outs) ty <->
  (stype s = ty -> r = None) /\ noFailure l outs ty.
Proof.
  unfold noFailure. split.
  - intros H. split.
    + intros Hty. specialize (H 0 s eq_refl Hty). by injection H.
    + intros k s' Hk Hty. exact (H (S k) s' Hk Hty).
  - intros [H0 H] [|k] s' Hk Hty; simpl in *.
    + injection Hk as <-. by rewrite H0.
    + by eapply H.
Qed.

Lemma failedLast_cons s l r outs ty e :
  failedLast (s :: l) (r :: outs) ty e <->
  (stype s = ty /\ r = Some e /\ noFailure l outs ty) \/
  failedLast l outs ty e.
Proof.
  unfold failedLast, noFailure. split.
  - intros ([|k] & s' & Hk & Hty & Hout & Hlast); simpl in *.
    + injection Hk as <-. injection Hout as ->. left.
      repeat split; [done|].
      intros k' s'' Hk' Hty'. apply (Hlast (S k') s''); [lia|done..].
    + right. exists k, s'. repeat split; [done..|].
      intros k' s'' Hlt Hk' Hty'. apply (Hlast (S k') s''); [lia|done..].
  - intros [(Hty & -> & Hno)|(k & s' & Hk & Hty & Hout & Hlast)].
    + exists 0, s. repeat split; [done..|].
      intros [|k'] s'' Hlt Hk' Hty'; [lia|]. simpl in *. by eapply Hno.
    + exists (S k), s'. repeat split; [done..|].
      intros [|k'] s'' Hlt Hk' Hty'; [lia|]. simpl in *.
      apply (Hlast k' s''); [lia|done..].
Qed.

(** The map filled by the loop of [Stop]: under each type, the error of the
    last service of that type that failed. *)
Lemma stopServices_map l t m0 ty e :
  (stopServices l t m0).2 !! ty = Some e <->
  failedLast l (stopAnswers l t) ty e \/
  (m0 !! ty = Some e /\ noFailure l (stopAnswers l t) ty).
Proof.
  revert t m0; induction l as [|s l IH]; intros t m0; simpl.
  - split.
    + intros H. right. split; [done|]. by intros k s Hk.
    + intros [(k & s & Hk & _)|[H _]]; [done|done].
  - rewrite failedLast_cons, noFailure_cons.
    destruct (svcStop s t) as [err|] eqn:Hs; rewrite IH.
    + destruct (decide (stype s = ty)) as [Heq|Hne].
      * rewrite <- Heq, lookup_insert_eq. rewrite Heq.
        intuition congruence.
      * rewrite lookup_insert_ne by done. intuition congruence.
    + intuition congruence.
Qed.

Lemma stopServices_empty l t m0 :
  (stopServices l t m0).2 = ∅ <->
  m0 = ∅ /\ Forall (fun o => o = None) (stopAnswers l t).
Proof.
  revert t m0; induction l as [|s l IH]; intros t m0; simpl.
  - split; [by intros ->|by intros [-> _]].
  - destruct (svcStop s t) as [err|] eqn:Hs; rewrite IH.
    + split.
      * intros [H _]. by apply insert_non_empty in H.
      * intros [_ H]. by inversion H.
    + split.
      * intros [-> H]. split; [done|]. by constructor.
      * intros [-> H]. split; [done|]. by inversion H.
Qed.

(** Stop on a running node, as one equation. *)
Lemma Stop_running_eq n t srv :
  server n = Some srv ->
  Stop n t =
    (set_server None (set_services [] n),
     t ++ stopped (services n) (stopAnswers (services n) t)
       ++ [EvServerStop srv],
     if decide (0 < size (stopServices (services n) t ∅).2)
     then Some (StopError (stopServices (services n) t ∅).2) else None).
Proof.
  intros Hsrv. unfold Stop. rewrite Hsrv.
  pose proof (stopServices_trace (services n) t ∅) as Ht.
  destruct (stopServices (services n) t ∅) as [t1 m]. simpl in *. subst t1.
  rewrite <- app_assoc. by destruct (decide (0 < size m)).
Qed.

Lemma Stop_idle n t :
  Idle n -> Stop n t = (n, t, Some (Err ErrNodeStopped)).
Proof. intros H. unfold Stop. by rewrite H. Qed.

(** ** The lifecycle claims *)

(** Discharges [allStart] for a concrete list of services. *)
Ltac all_start :=
  let k := fresh "k" in
  let s := fresh "s" in
  let Hk := fresh "Hk" in
  intros k s Hk;
  repeat (destruct k as [|k]; simpl in Hk;
          [injection Hk as <-; reflexivity|]);
  discriminate Hk.

(** C1. Partial-start rollback.  The services registered before the failing
    one are [pre] (the claim's A), the failing one is [B], those after it are
    [post] (the claim's C).  When the transport starts, the services of [pre]
    start and [B]'s Start answers [E], the calls Start makes are exactly:
    start the transport, start each service of [pre], start [B], stop each
    service of [pre] once and in the order they were started, stop the
    transport.  No service of [post] is started, the node is Idle with its
    services as they were, and the error returned is [E] itself. *)
Theorem Start_partial_rollback env h n t conf running pre B post E :
  Idle n ->
  configs h !! config n = Some conf ->
  services n = pre ++ B :: post ->
  running = buildServer (P2P conf) (services n) ->
  p2pStart env running t = None ->
  allStart running pre (t ++ [EvServerStart running None]) ->
  svcStart B running
    (t ++ [EvServerStart running None] ++ started running pre) = Some E ->
  exists n' outs,
    Start env h n t =
      Some (n',
            t ++ [EvServerStart running None]
              ++ started running pre
              ++ [EvSvcStart (sname B) running (Some E)]
              ++ stopped pre outs
              ++ [EvServerStop running],
            Some (Err E)) /\
    length outs = length pre /\
    Idle n' /\ services n' = pre ++ B :: post.
Proof.
  intros Hidle Hconf Hsvc -> Hp2p Hpre HB.
  eexists _, _. split.
  - by apply (Start_rollback_eq env h n t conf pre B post E).
  - split; [apply stopAnswers_length|]. by split.
Qed.

Lemma Start_partial_rollback_witness :
  exists n' outs,
    Start Sample.env Sample.heap
      (Sample.nodeWith [Sample.A; Sample.B; Sample.C]) [] =
      Some (n',
            [] ++ [EvServerStart
                     {| srvConfig := {| p2pTag := "p2p" |};
                        Protocols := ["A"; "B"; "C"] |} None]
              ++ started {| srvConfig := {| p2pTag := "p2p" |};
                            Protocols := ["A"; "B"; "C"] |} [Sample.A]
              ++ [EvSvcStart "B"
                    {| srvConfig := {| p2pTag := "p2p" |};
                       Protocols := ["A"; "B"; "C"] |} (Some Sample.E)]
              ++ stopped [Sample.A] outs
              ++ [EvServerStop
                    {| srvConfig := {| p2pTag := "p2p" |};
                       Protocols := ["A"; "B"; "C"] |}],
            Some (Err Sample.E)) /\
    length outs = 1 /\
    Idle n' /\ services n' = [Sample.A] ++ Sample.B :: [Sample.C].
Proof.
  apply (Start_partial_rollback Sample.env Sample.heap
           (Sample.nodeWith [Sample.A; Sample.B; Sample.C]) [] Sample.conf
           {| srvConfig := {| p2pTag := "p2p" |};
              Protocols := ["A"; "B"; "C"] |}
           [Sample.A] Sample.B [Sample.C] Sample.E).
  - reflexivity.
  - vm_compute. reflexivity.
  - reflexivity.
  - reflexivity.
  - reflexivity.
  - all_start.
  - reflexivity.
Defined.

(** C3. RPC-bootstrap rollback.  When the transport and every service
    started and [startRPC] then fails with [e] on either listener (duplicate
    namespace, a receiver the rpc server rejects, a listen error), Start
    stops every registered service, stops the transport, leaves the node Idle
    and returns [e]. *)
Theorem Start_rpc_rollback env h n t conf running t2 e :
  Idle n ->
  configs h !! config n = Some conf ->
  running = buildServer (P2P conf) (services n) ->
  p2pStart env running t = None ->
  allStart running (services n) (t ++ [EvServerStart running None]) ->
  startRPC env h (services n) conf
    (t ++ [EvServerStart running None] ++ started running (services n))
    = (t2, Some e) ->
  exists n' outs,
    Start env h n t =
      Some (n',
            t2 ++ stopped (services n) outs ++ [EvServerStop running],
            Some (Err e)) /\
    length outs = length (services n) /\
    Idle n' /\ services n' = services n.
Proof.
  intros Hidle Hconf -> Hp2p Hall Hrpc.
  eexists _, _. split.
  - by apply (Start_rpc_rollback_eq env h n t conf t2 e).
  - split; [apply stopAnswers_length|]. by split.
Qed.

(** The witness: [A] and [D] both declare the namespace "chain"; the second
    registration on the raw-socket server fails. *)
Lemma Start_rpc_rollback_witness :
  exists n' outs,
    Start Sample.env Sample.heap (Sample.nodeWith [Sample.A; Sample.D]) [] =
      Some (n',
            [EvServerStart
               {| srvConfig := {| p2pTag := "p2p" |};
                  Protocols := ["A"; "D"] |} None;
             EvSvcStart "A"
               {| srvConfig := {| p2pTag := "p2p" |};
                  Protocols := ["A"; "D"] |} None;
             EvSvcStart "D"
               {| srvConfig := {| p2pTag := "p2p" |};
                  Protocols := ["A"; "D"] |} None;
             EvRegisterName RawSocket Sample.chainAPI None;
             EvRegisterName RawSocket Sample.chainAPI'
               (Some (ErrExt "rpc: service already defined: chain"))]
            ++ stopped (services (Sample.nodeWith [Sample.A; Sample.D])) outs
            ++ [EvServerStop
                  {| srvConfig := {| p2pTag := "p2p" |};
                     Protocols := ["A"; "D"] |}],
            Some (Err (ErrExt "rpc: service already defined: chain"))) /\
    length outs = length (services (Sample.nodeWith [Sample.A; Sample.D])) /\
    Idle n' /\
    services n' = services (Sample.nodeWith [Sample.A; Sample.D]).
Proof.
  apply (Start_rpc_rollback Sample.env Sample.heap
           (Sample.nodeWith [Sample.A; Sample.D]) [] Sample.conf).
  - reflexivity.
  - vm_compute. reflexivity.
  - reflexivity.
  - reflexivity.
  - all_start.
  - vm_compute. reflexivity.
Defined.

(** C5. No double start, registration lockout.  On a Running node Start and
    Register both return [ErrNodeRunning]; the node they leave is the node
    they found, and Start makes no call at all. *)
Theorem Running_lockout env h n t service :
  Running n ->
  Start env h n t = Some (n, t, Some (Err ErrNodeRunning)) /\
  Register n service = (n, Some (Err ErrNodeRunning)).
Proof.
  intros Hrun. split.
  - by apply Start_running.
  - by apply Register_running.
Qed.

Lemma Running_lockout_witness :
  Start Sample.env Sample.heap (Sample.afterStart [Sample.A; Sample.C]).1
    (Sample.afterStart [Sample.A; Sample.C]).2 =
    Some ((Sample.afterStart [Sample.A; Sample.C]).1,
          (Sample.afterStart [Sample.A; Sample.C]).2,
          Some (Err ErrNodeRunning)) /\
  Register (Sample.afterStart [Sample.A; Sample.C]).1 Sample.D =
    ((Sample.afterStart [Sample.A; Sample.C]).1, Some (Err ErrNodeRunning)).
Proof.
  apply (Running_lockout Sample.env Sample.heap
           (Sample.afterStart [Sample.A; Sample.C]).1
           (Sample.afterStart [Sample.A; Sample.C]).2 Sample.D).
  eexists. vm_compute. reflexivity.
Defined.

(** C6. Transport failure.  On an Idle node whose transport fails to start,
    Start returns [ErrServiceStartFailed]; the only call it made is the
    failed start of the transport, so no service was touched, and the node is
    Idle with its services as they were. *)
Theorem Start_transport_failure env h n t conf running e :
  Idle n ->
  configs h !! config n = Some conf ->
  running = buildServer (P2P conf) (services n) ->
  p2pStart env running t = Some e ->
  exists n',
    Start env h n t =
      Some (n', t ++ [EvServerStart running (Some e)],
            Some (Err ErrServiceStartFailed)) /\
    Idle n' /\ services n' = services n.
Proof.
  intros Hidle Hconf -> Hp2p. eexists. split.
  - unfold Start. rewrite Hidle, Hconf. simpl. rewrite Hp2p. reflexivity.
  - by split.
Qed.

Lemma Start_transport_failure_witness :
  exists n',
    Start Sample.envNoTransport Sample.heap
      (Sample.nodeWith [Sample.A; Sample.C]) [] =
      Some (n',
            [] ++ [EvServerStart
                     {| srvConfig := {| p2pTag := "p2p" |};
                        Protocols := ["A"; "C"] |}
                     (Some (ErrExt "listen udp: address in use"))],
            Some (Err ErrServiceStartFailed)) /\
    Idle n' /\
    services n' = services (Sample.nodeWith [Sample.A; Sample.C]).
Proof.
  apply (Start_transport_failure Sample.envNoTransport Sample.heap
           (Sample.nodeWith [Sample.A; Sample.C]) [] Sample.conf).
  - reflexivity.
  - vm_compute. reflexivity.
  - reflexivity.
  - reflexivity.
Defined.

(** Either no service of type [ty] failed to stop, or one of them was the
    last to fail. *)
Lemma failure_dichotomy l outs ty :
  length outs = length l ->
  noFailure l outs ty \/ exists e, failedLast l outs ty e.
Proof.
  revert outs; induction l as [|s l IH]; intros outs Hlen.
  - left. by intros k s Hk.
  - destruct outs as [|r outs]; [done|]. simpl in Hlen.
    destruct (IH outs) as [Hno|[e He]]; [lia| |].
    + destruct (decide (stype s = ty)) as [Heq|Hne].
      * destruct r as [e|].
        -- right. exists e. apply failedLast_cons. by left.
        -- left. by apply noFailure_cons.
      * left. by apply noFailure_cons.
    + right. exists e. apply failedLast_cons. by right.
Qed.

(** C2. Stop aggregation.  On a Running node Stop calls the Stop of every
    registered service, in order ([outs] are their answers), then stops the
    transport whatever the answers were; the node it leaves is Idle with no
    services.  The map [m] is keyed by the identity the source uses, the
    type of the service: it holds, under a type, the error of the last
    service of that type that failed, so every service that failed has its
    key in [m], with its own error when no two services share a type.  Stop
    returns the aggregate [StopError m] when some answer is an error and nil
    when none is. *)
Theorem Stop_aggregates n t srv :
  server n = Some srv ->
  exists n' outs m r,
    Stop n t =
      (n', t ++ stopped (services n) outs ++ [EvServerStop srv], r) /\
    answersOf (services n) t outs /\
    (forall ty e, m !! ty = Some e <-> failedLast (services n) outs ty e) /\
    (forall k s e, services n !! k = Some s -> outs !! k = Some (Some e) ->
       is_Some (m !! stype s) /\
       (NoDup (stype <$> services n) -> m !! stype s = Some e)) /\
    (Exists (fun o => o <> None) outs -> r = Some (StopError m)) /\
    (Forall (fun o => o = None) outs -> r = None) /\
    Idle n' /\ services n' = [].
Proof.
  intros Hsrv.
  exists (set_server None (set_services [] n)),
    (stopAnswers (services n) t), (stopServices (services n) t ∅).2.
  eexists. split; [by apply Stop_running_eq|].
  split; [apply stopAnswers_answersOf|].
  assert (forall ty e,
            (stopServices (services n) t ∅).2 !! ty = Some e <->
            failedLast (services n) (stopAnswers (services n) t) ty e)
    as Hmap.
  { intros ty e. rewrite stopServices_map. rewrite lookup_empty.
    split; [by intros [?|[? _]]|by left]. }
  split; [done|]. split; [|split; [|split; [|by split]]].
  - intros k s e Hk Hout.
    destruct (failure_dichotomy (services n) (stopAnswers (services n) t)
                (stype s)) as [Hno|[e' He']].
    { apply stopAnswers_length. }
    { specialize (Hno k s Hk eq_refl). congruence. }
    split; [exists e'; by apply Hmap|].
    intros Hnd.
    pose proof He' as (k' & s' & Hk' & Hty & Hout' & _).
    assert (k' = k) as Heq.
    { eapply NoDup_lookup; [exact Hnd| |].
      - rewrite list_lookup_fmap, Hk'. simpl. by rewrite Hty.
      - by rewrite list_lookup_fmap, Hk. }
    subst k'. assert (e' = e) as -> by congruence.
    by apply Hmap.
  - intros Hex. destruct (decide _) as [|Hsize]; [done|].
    assert ((stopServices (services n) t ∅).2 = ∅) as Hempty.
    { apply map_size_empty_iff. lia. }
    apply stopServices_empty in Hempty as [_ Hall].
    apply Exists_exists in Hex as (o & Hin & Ho).
    rewrite Forall_forall in Hall. by specialize (Hall o Hin).
  - intros Hall. destruct (decide _) as [Hsize|]; [|done].
    assert ((stopServices (services n) t ∅).2 = ∅) as Hempty.
    { by apply stopServices_empty. }
    rewrite Hempty, map_size_empty in Hsize. lia.
Qed.

(** The witness: three started services, the second fails to stop. *)
Lemma Stop_aggregates_witness :
  exists n' outs m r,
    Stop (Sample.afterStart [Sample.A; Sample.B'; Sample.C]).1 [] =
      (n',
       [] ++ stopped
               (services (Sample.afterStart [Sample.A; Sample.B'; Sample.C]).1)
               outs
          ++ [EvServerStop
                {| srvConfig := {| p2pTag := "p2p" |};
                   Protocols := ["A"; "B"; "C"] |}], r) /\
    answersOf (services (Sample.afterStart [Sample.A; Sample.B'; Sample.C]).1)
      [] outs /\
    (forall ty e,
       m !! ty = Some e <->
       failedLast (services (Sample.afterStart [Sample.A; Sample.B'; Sample.C]).1)
         outs ty e) /\
    (forall k s e,
       services (Sample.afterStart [Sample.A; Sample.B'; Sample.C]).1 !! k
         = Some s ->
       outs !! k = Some (Some e) ->
       is_Some (m !! stype s) /\
       (NoDup (stype <$>
               services (Sample.afterStart [Sample.A; Sample.B'; Sample.C]).1)
        -> m !! stype s = Some e)) /\
    (Exists (fun o => o <> None) outs -> r = Some (StopError m)) /\
    (Forall (fun o => o = None) outs -> r = None) /\
    Idle n' /\ services n' = [].
Proof.
  apply (Stop_aggregates (Sample.afterStart [Sample.A; Sample.B'; Sample.C]).1 []).
  vm_compute. reflexivity.
Defined.

(** C7. Restart composition.  Restart is Stop followed by Start: it returns
    what [StopThenStart] returns and leaves the same node and the same
    history.  When Stop succeeds, that is what Start does on the node and
    history Stop left; when Stop fails, it is what Stop did, with Stop's
    error, and nothing of Start has happened. *)
Theorem Restart_composition env h n t :
  Restart env h n t = StopThenStart env h n t /\
  (forall n1 t1, Stop n t = (n1, t1, None) ->
     Restart env h n t = Start env h n1 t1) /\
  (forall n1 t1 err, Stop n t = (n1, t1, Some err) ->
     Restart env h n t = Some (n1, t1, Some err)).
Proof.
  unfold Restart, StopThenStart. repeat split.
  - destruct (Stop n t) as [[n1 t1] [err|]]; [done|].
    by destruct (Start env h n1 t1) as [[[n2 t2] [err|]]|].
  - intros n1 t1 ->.
    by destruct (Start env h n1 t1) as [[[n2 t2] [err|]]|].
  - by intros n1 t1 err ->.
Qed.

(** The witness: a Running node whose services stop, a Running node whose
    second service fails to stop, and a node that was never started. *)
Lemma Restart_composition_witness :
  Restart Sample.env Sample.heap (Sample.afterStart [Sample.A; Sample.C]).1 [] =
    Start Sample.env Sample.heap
      (Stop (Sample.afterStart [Sample.A; Sample.C]).1 []).1.1
      (Stop (Sample.afterStart [Sample.A; Sample.C]).1 []).1.2 /\
  Restart Sample.env Sample.heap
    (Sample.afterStart [Sample.A; Sample.B'; Sample.C]).1 [] =
    Some ((Stop (Sample.afterStart [Sample.A; Sample.B'; Sample.C]).1 []).1.1,
          (Stop (Sample.afterStart [Sample.A; Sample.B'; Sample.C]).1 []).1.2,
          Some (StopError {[ "*b.Service" := Sample.F ]})) /\
  Restart Sample.env Sample.heap Sample.node0 [] =
    Some (Sample.node0, [], Some (Err ErrNodeStopped)).
Proof.
  split; [|split].
  - apply (proj1 (proj2 (Restart_composition Sample.env Sample.heap
                           (Sample.afterStart [Sample.A; Sample.C]).1 []))).
    vm_compute. reflexivity.
  - apply (proj2 (proj2 (Restart_composition Sample.env Sample.heap
                           (Sample.afterStart [Sample.A; Sample.B'; Sample.C]).1
                           []))).
    vm_compute. reflexivity.
  - apply (proj2 (proj2 (Restart_composition Sample.env Sample.heap
                           Sample.node0 []))).
    vm_compute. reflexivity.
Defined.

(** C8. A restarted node has no services.  After a Stop that succeeded on a
    Running node, a successful Start (called directly, or as the second half
    of Restart) leaves the node Running with an empty service list.  The
    calls of that Start are: start a transport whose protocol list is empty,
    listen and serve on the raw socket, make the HTTP server, listen and
    serve on HTTP.  No service is started and no namespace is registered on
    either listener. *)
Theorem Restart_forgets_services env h n t n1 t1 n' t' :
  Running n ->
  Stop n t = (n1, t1, None) ->
  Start env h n1 t1 = Some (n', t', None) \/
  Restart env h n t = Some (n', t', None) ->
  Running n' /\ services n' = [] /\
  exists conf,
    configs h !! config n = Some conf /\
    server n' = Some {| srvConfig := P2P conf; Protocols := [] |} /\
    t' = t1 ++ [EvServerStart {| srvConfig := P2P conf; Protocols := [] |} None;
                EvListen RawSocket (RPCAddr conf) None; EvServe RawSocket;
                EvNewHTTPServer (readSlice h (HTTPWhiteHost conf))
                  (readSlice h (HTTPCors conf));
                EvHandleHTTP; EvListen HTTP (HTTPAddr conf) None;
                EvServe HTTP].
Proof.
  intros [srv Hsrv] Hstop Hstart.
  assert (Start env h n1 t1 = Some (n', t', None)) as H.
  { destruct Hstart as [H|H]; [done|].
    unfold Restart in H. rewrite Hstop in H.
    by destruct (Start env h n1 t1) as [[[n2 t2] [err|]]|];
      simplify_eq. }
  clear Hstart.
  rewrite (Stop_running_eq n t srv Hsrv) in Hstop.
  assert (n1 = set_server None (set_services [] n)) as ->.
  { by destruct (decide _); simplify_eq. }
  apply Start_success in H as (_ & conf & Hconf & -> & ->). simpl in *.
  split; [by eexists|]. split; [done|].
  exists conf. by repeat split.
Qed.

Lemma Restart_forgets_services_witness :
  Running
    (set_server
       (Some {| srvConfig := {| p2pTag := "p2p" |}; Protocols := [] |})
       (Stop (Sample.afterStart [Sample.A; Sample.C]).1 []).1.1) /\
  services
    (set_server
       (Some {| srvConfig := {| p2pTag := "p2p" |}; Protocols := [] |})
       (Stop (Sample.afterStart [Sample.A; Sample.C]).1 []).1.1) = [] /\
  exists conf,
    configs Sample.heap !! config (Sample.afterStart [Sample.A; Sample.C]).1
      = Some conf /\
    server
      (set_server
         (Some {| srvConfig := {| p2pTag := "p2p" |}; Protocols := [] |})
         (Stop (Sample.afterStart [Sample.A; Sample.C]).1 []).1.1)
      = Some {| srvConfig := P2P conf; Protocols := [] |} /\
    (Stop (Sample.afterStart [Sample.A; Sample.C]).1 []).1.2
      ++ [EvServerStart
            {| srvConfig := {| p2pTag := "p2p" |}; Protocols := [] |} None;
          EvListen RawSocket "127.0.0.1:55027" None; EvServe RawSocket;
          EvNewHTTPServer ["localhost"] ["https://seele.example"];
          EvHandleHTTP; EvListen HTTP "127.0.0.1:65027" None; EvServe HTTP]
    = (Stop (Sample.afterStart [Sample.A; Sample.C]).1 []).1.2
      ++ [EvServerStart {| srvConfig := P2P conf; Protocols := [] |} None;
          EvListen RawSocket (RPCAddr conf) None; EvServe RawSocket;
          EvNewHTTPServer (readSlice Sample.heap (HTTPWhiteHost conf))
            (readSlice Sample.heap (HTTPCors conf));
          EvHandleHTTP; EvListen HTTP (HTTPAddr conf) None; EvServe HTTP].
Proof.
  apply (Restart_forgets_services Sample.env Sample.heap
           (Sample.afterStart [Sample.A; Sample.C]).1 []
           (Stop (Sample.afterStart [Sample.A; Sample.C]).1 []).1.1
           (Stop (Sample.afterStart [Sample.A; Sample.C]).1 []).1.2).
  - eexists. vm_compute. reflexivity.
  - vm_compute. reflexivity.
  - right. vm_compute. reflexivity.
Defined.

(** ** The order of registration and accepting *)

Lemma serve_not_started k running l : EvServe k ∉ started running l.
Proof.
  unfold started. rewrite list_elem_of_In, in_map_iff.
  by intros (s & Hs & _).
Qed.

Lemma serve_not_registered k k0 apis : EvServe k ∉ registered k0 apis.
Proof.
  unfold registered. rewrite list_elem_of_In, in_map_iff.
  by intros (a & Ha & _).
Qed.

Lemma registered_elem k api apis :
  api ∈ apis -> EvRegisterName k api None ∈ registered k apis.
Proof.
  intros Hin. unfold registered. rewrite list_elem_of_In, in_map_iff.
  exists api. split; [done|]. by apply list_elem_of_In.
Qed.

(** An event of the prefix [P] comes before any event that [P] lacks. *)
Lemma before_prefix (P Q : list Event) e e' j :
  e ∈ P -> e' ∉ P -> (P ++ Q) !! j = Some e' ->
  exists i, i < j /\ (P ++ Q) !! i = Some e.
Proof.
  intros He He' Hj.
  apply list_elem_of_lookup in He as [i Hi].
  exists i. split.
  - destruct (decide (j < length P)) as [Hlt|Hge].
    + rewrite lookup_app_l in Hj by done.
      destruct He'. apply list_elem_of_lookup. by exists j.
    + apply lookup_lt_Some in Hi. lia.
  - rewrite lookup_app_l; [done|]. by apply lookup_lt_Some in Hi.
Qed.

(** The claim of C4 fails on a node with one service that offers one
    namespace: the raw-socket listener is serving (event 4 of the Start)
    before "chain" is registered on the HTTP server (event 6). *)
Lemma Start_serves_before_HTTP_registered :
  ~ allRegisteredFirst Sample.env Sample.heap (Sample.nodeWith [Sample.A]) [].
Proof.
  intros H.
  assert (Start Sample.env Sample.heap (Sample.nodeWith [Sample.A]) [] =
          Some ((Sample.afterStart [Sample.A]).1, (Sample.afterStart [Sample.A]).2,
                None)) as Hs by (vm_compute; reflexivity).
  destruct (H _ _ Hs HTTP RawSocket Sample.chainAPI 4) as (i & Hlt & Hi).
  - vm_compute. apply list_elem_of_here.
  - reflexivity.
  - destruct i as [|[|[|[|i]]]]; [discriminate Hi..|lia].
Qed.

(** C4, amended.  During every successful Start each listener has every
    namespace of the aggregate API set registered on its own server before
    it begins to accept, and the raw-socket registrations also precede the
    HTTP listener; but the raw-socket listener begins to accept before
    anything is registered on the HTTP server. *)
Theorem Start_registers_before_serving env h n t n' t' :
  Start env h n t = Some (n', t', None) ->
  (forall k k', k = RawSocket \/ k' = HTTP ->
     registersBeforeServing k k' (aggregateAPIs (services n))
       (drop (length t) t')) /\
  (forall i api r,
     drop (length t) t' !! i = Some (EvRegisterName HTTP api r) ->
     exists j, j < i /\ drop (length t) t' !! j = Some (EvServe RawSocket)).
Proof.
  intros Hs.
  apply Start_success in Hs as (_ & conf & _ & _ & ->).
  rewrite drop_app_length.
  set (running := buildServer (P2P conf) (services n)).
  set (apis := aggregateAPIs (services n)).
  split.
  - intros k k' Hk api j Hapi Hj.
    destruct k.
    + (* registered on the raw socket: within the first three blocks *)
      rewrite 2!app_assoc in Hj |- *.
      apply (before_prefix _ _ _ (EvServe k') j); [| |done].
      * apply elem_of_app. right. by apply registered_elem.
      * rewrite !elem_of_app, list_elem_of_singleton.
        intros [[?|?]|?]; [done| |].
        -- by eapply serve_not_started.
        -- by eapply serve_not_registered.
    + (* registered on HTTP, and the listener that accepts is HTTP *)
      destruct Hk as [?| ->]; [done|].
      rewrite 4!app_assoc in Hj |- *.
      apply (before_prefix _ _ _ (EvServe HTTP) j); [| |done].
      * apply elem_of_app. right. by apply registered_elem.
      * rewrite !elem_of_app, list_elem_of_singleton, !elem_of_cons,
          elem_of_nil.
        intros [[[[?|?]|?]|[?|[?|[?|?]]]]|?]; try done.
        -- by eapply serve_not_started.
        -- by eapply serve_not_registered.
        -- by eapply serve_not_registered.
  - intros i api r Hi.
    rewrite 3!app_assoc in Hi |- *.
    apply (before_prefix _ _ _ (EvRegisterName HTTP api r) i); [| |done].
    + apply elem_of_app. right. set_solver.
    + rewrite !elem_of_app, list_elem_of_singleton, !elem_of_cons,
        elem_of_nil.
      unfold started, registered.
      rewrite !list_elem_of_In, !in_map_iff.
      intros [[[?|(? & ? & _)]|(? & ? & _)]|[?|[?|[?|?]]]]; done.
Qed.

Lemma Start_registers_before_serving_witness :
  (forall k k', k = RawSocket \/ k' = HTTP ->
     registersBeforeServing k k'
       (aggregateAPIs (services (Sample.nodeWith [Sample.A; Sample.B'])))
       (drop (length (@nil Event)) (Sample.afterStart [Sample.A; Sample.B']).2))
  /\
  (forall i api r,
     drop (length (@nil Event)) (Sample.afterStart [Sample.A; Sample.B']).2 !! i
       = Some (EvRegisterName HTTP api r) ->
     exists j, j < i /\
       drop (length (@nil Event)) (Sample.afterStart [Sample.A; Sample.B']).2
         !! j = Some (EvServe RawSocket)).
Proof.
  apply (Start_registers_before_serving Sample.env Sample.heap
           (Sample.nodeWith [Sample.A; Sample.B']) []
           (Sample.afterStart [Sample.A; Sample.B']).1
           (Sample.afterStart [Sample.A; Sample.B']).2).
  vm_compute. reflexivity.
Defined.

(** ** New and the caller's config *)

Lemma mutates_frame h conf mus h2 q :
  q <> conf ->
  Forall (fun mu => isFieldAssignment mu = true) mus ->
  mutates h conf mus = Some h2 ->
  configs h2 !! q = configs h !! q /\ arrays h2 = arrays h.
Proof.
  intros Hq Hmus. revert h. induction Hmus as [|mu mus Hmu _ IH];
    intros h Hm; simpl in Hm.
  - by injection Hm as <-.
  - destruct (mutate h conf mu) as [h'|] eqn:Hmu'; [|done].
    apply IH in Hm as [-> ->].
    unfold mutate in Hmu'.
    destruct (configs h !! conf) as [c|]; [|done].
    destruct mu; try done; injection Hmu' as <-; simpl;
      by rewrite lookup_insert_ne.
Qed.

(** Start reads the heap only through the node's own config cell and the
    backing arrays. *)
Lemma Start_heap_ext env h1 h2 n t :
  configs h2 !! config n = configs h1 !! config n ->
  arrays h2 = arrays h1 ->
  Start env h2 n t = Start env h1 n t.
Proof.
  intros Hc Ha. unfold Start, startRPC, readSlice. by rewrite Hc, Ha.
Qed.

(** The claim of C9 fails: the copy made by [New] shares the backing array
    of [HTTPCors] with the caller, whose later [conf.HTTPCors[0] = "*"]
    shows in the node's stored config. *)
Lemma New_copy_is_shallow :
  ~ isolatedFrom Sample.heap0 1 [SetHTTPCorsAt 0 "*"].
Proof.
  intros H.
  edestruct H as [Hview _].
  - vm_compute. reflexivity.
  - vm_compute. reflexivity.
  - vm_compute in Hview. discriminate Hview.
Qed.

(** C9, amended.  [New] copies the config struct itself: whatever the
    caller assigns afterwards to fields of its own config, the stored config
    of the node and every later Start are unchanged. *)
Theorem New_isolates_field_assignments h conf mus :
  Forall (fun mu => isFieldAssignment mu = true) mus ->
  isolatedFrom h conf mus.
Proof.
  intros Hmus h1 n h2 Hnew Hm. unfold New in Hnew.
  destruct (configs h !! conf) as [c|] eqn:Hc; [|done].
  injection Hnew as <- <-.
  assert (fresh (dom (configs h)) <> conf) as Hq.
  { intros Heq. apply (is_fresh (dom (configs h))). rewrite Heq.
    apply elem_of_dom. by eexists. }
  destruct (mutates_frame _ _ _ _ _ Hq Hmus Hm) as [Hcfg Harr].
  split.
  - unfold storedConfig, readSlice. simpl in *. by rewrite Hcfg, Harr.
  - intros env n' t Hn'. apply Start_heap_ext; [|done].
    rewrite Hn'. simpl. done.
Qed.

Lemma New_isolates_field_assignments_witness :
  storedConfig
    (SampleHeaps.after
       [SetRPCAddr "0.0.0.0:1"; SetHTTPCors {| sl_arr := 1; sl_len := 1 |}])
    Sample.node0 = storedConfig Sample.heap Sample.node0 /\
  forall env n' t, config n' = config Sample.node0 ->
    Start env
      (SampleHeaps.after
         [SetRPCAddr "0.0.0.0:1"; SetHTTPCors {| sl_arr := 1; sl_len := 1 |}])
      n' t = Start env Sample.heap n' t.
Proof.
  apply (New_isolates_field_assignments Sample.heap0 1
           [SetRPCAddr "0.0.0.0:1";
            SetHTTPCors {| sl_arr := 1; sl_len := 1 |}]).
  - repeat constructor.
  - vm_compute. reflexivity.
  - vm_compute. reflexivity.
Defined.

(** ** Rewards *)

Lemma era_of_block (bpe k r : Z) :
  (0 < bpe)%Z -> (0 <= r < bpe)%Z -> ((k * bpe + r) / bpe = k)%Z.
Proof.
  intros Hb Hr. symmetry. apply (Z.div_unique _ _ _ r); [lia|lia].
Qed.

Lemma GetReward_in_table table tail bpe n k r :
  (n / bpe = Z.of_nat k)%Z -> table !! k = Some r ->
  GetReward table tail bpe n = r.
Proof.
  intros Hera Hk. unfold GetReward. rewrite Hera.
  apply lookup_lt_Some in Hk as Hlt.
  destruct (decide _) as [_|Hge]; [|lia].
  by rewrite Nat2Z.id, Hk.
Qed.

(** C10. Reward lookup.  With era = floor(n / blockNumberPerEra): a block
    whose era is inside the table is rewarded with the table's entry for that
    era, any other block with the tail reward.  So block 0 gets
    [rewardTable[0]], the first and the last block of era [k] get
    [rewardTable[k]], and the first block past the last tabulated era gets
    the tail reward. *)
Theorem GetReward_by_era (rewardTable : list Z) (tailReward bpe : Z) :
  (0 < bpe)%Z ->
  (forall n, (0 <= n)%Z ->
     (n / bpe < Z.of_nat (length rewardTable))%Z ->
     rewardTable !! Z.to_nat (n / bpe)
       = Some (GetReward rewardTable tailReward bpe n)) /\
  (forall n, (0 <= n)%Z ->
     (Z.of_nat (length rewardTable) <= n / bpe)%Z ->
     GetReward rewardTable tailReward bpe n = tailReward) /\
  (forall r, rewardTable !! 0 = Some r ->
     GetReward rewardTable tailReward bpe 0 = r) /\
  (forall k r, rewardTable !! k = Some r ->
     GetReward rewardTable tailReward bpe (Z.of_nat k * bpe) = r /\
     GetReward rewardTable tailReward bpe ((Z.of_nat k + 1) * bpe - 1) = r) /\
  GetReward rewardTable tailReward bpe
    (bpe * Z.of_nat (length rewardTable)) = tailReward.
Proof.
  intros Hb. repeat split.
  - intros n Hn Hera.
    assert (0 <= n / bpe)%Z as Hpos by (apply Z.div_pos; lia).
    destruct (rewardTable !! Z.to_nat (n / bpe)) as [r|] eqn:Hr.
    + f_equal. symmetry.
      apply (GetReward_in_table _ _ _ _ (Z.to_nat (n / bpe))); [lia|done].
    + apply lookup_ge_None in Hr. lia.
  - intros n Hn Hera. unfold GetReward.
    destruct (decide _) as [Hlt|_]; [lia|done].
  - intros r Hr. by apply (GetReward_in_table _ _ _ _ 0).
  - apply (GetReward_in_table _ _ _ _ k); [|done].
    replace (Z.of_nat k * bpe)%Z with (Z.of_nat k * bpe + 0)%Z by lia.
    apply era_of_block; lia.
  - apply (GetReward_in_table _ _ _ _ k); [|done].
    replace ((Z.of_nat k + 1) * bpe - 1)%Z
      with (Z.of_nat k * bpe + (bpe - 1))%Z by lia.
    apply era_of_block; lia.
  - unfold GetReward.
    replace (bpe * Z.of_nat (length rewardTable))%Z
      with (Z.of_nat (length rewardTable) * bpe + 0)%Z by lia.
    rewrite era_of_block by lia.
    destruct (decide _) as [Hlt|_]; [lia|done].
Qed.

Lemma GetReward_by_era_witness :
  (forall n, (0 <= n)%Z ->
     (n / 10 < Z.of_nat (length Sample.table))%Z ->
     Sample.table !! Z.to_nat (n / 10)
       = Some (GetReward Sample.table 6 10 n)) /\
  (forall n, (0 <= n)%Z ->
     (Z.of_nat (length Sample.table) <= n / 10)%Z ->
     GetReward Sample.table 6 10 n = 6%Z) /\
  (forall r, Sample.table !! 0 = Some r ->
     GetReward Sample.table 6 10 0 = r) /\
  (forall k r, Sample.table !! k = Some r ->
     GetReward Sample.table 6 10 (Z.of_nat k * 10) = r /\
     GetReward Sample.table 6 10 ((Z.of_nat k + 1) * 10 - 1) = r) /\
  GetReward Sample.table 6 10 (10 * Z.of_nat (length Sample.table)) = 6%Z.
Proof.
  apply (GetReward_by_era Sample.table 6 10). lia.
Defined.

(** The assertions of [Test_Reward], on the sample table. *)
Example Test_Reward :
  GetReward Sample.table 6 10 0 = 50%Z /\
  GetReward Sample.table 6 10 (10 - 1) = 50%Z /\
  GetReward Sample.table 6 10 10 = 25%Z /\
  GetReward Sample.table 6 10 (10 * 2 - 1) = 25%Z /\
  GetReward Sample.table 6 10 (10 * 3 - 1) = 12%Z /\
  GetReward Sample.table 6 10 (10 * 3) = 6%Z.
Proof. repeat split. Qed.

(** ** The testable properties of the spec, on the sample nodes *)

(** Idempotent idle: Stop on a node that was never started. *)
Example Stop_never_started :
  Stop Sample.node0 [] = (Sample.node0, [], Some (Err ErrNodeStopped)) /\
  services Sample.node0 = [].
Proof. split; reflexivity. Qed.

(** Stop aggregation: three started services, the second fails to stop. *)
Example Stop_three_services :
  Stop (Sample.afterStart [Sample.A; Sample.B'; Sample.C]).1 [] =
    (set_server None
       (set_services [] (Sample.afterStart [Sample.A; Sample.B'; Sample.C]).1),
     [EvSvcStop "A" None; EvSvcStop "B" (Some Sample.F); EvSvcStop "C" None;
      EvServerStop {| srvConfig := {| p2pTag := "p2p" |};
                      Protocols := ["A"; "B"; "C"] |}],
     Some (StopError {[ "*b.Service" := Sample.F ]})).
Proof. vm_compute. reflexivity. Qed.

(** Aggregate API: "chain" and "pool" reach both listeners. *)
Example Start_two_namespaces :
  (Sample.afterStart [Sample.A; Sample.B']).2 =
    [EvServerStart {| srvConfig := {| p2pTag := "p2p" |};
                      Protocols := ["A"; "B"] |} None;
     EvSvcStart "A" {| srvConfig := {| p2pTag := "p2p" |};
                       Protocols := ["A"; "B"] |} None;
     EvSvcStart "B" {| srvConfig := {| p2pTag := "p2p" |};
                       Protocols := ["A"; "B"] |} None;
     EvRegisterName RawSocket Sample.chainAPI None;
     EvRegisterName RawSocket Sample.poolAPI None;
     EvListen RawSocket "127.0.0.1:55027" None; EvServe RawSocket;
     EvNewHTTPServer ["localhost"] ["https://seele.example"];
     EvRegisterName HTTP Sample.chainAPI None;
     EvRegisterName HTTP Sample.poolAPI None;
     EvHandleHTTP; EvListen HTTP "127.0.0.1:65027" None; EvServe HTTP].
Proof. vm_compute. reflexivity. Qed.

(* ================================================================== *)
(** * Further properties of the node *)

(** ** Every way out of Start *)

Lemma registerAll_events env k reg apis t t' r :
  registerAll env k reg apis t = (t', r) ->
  exists evs,
    t' = t ++ evs /\
    Forall (fun e => exists api r', e = EvRegisterName k api r') evs.
Proof.
  revert reg t; induction apis as [|api apis IH]; intros reg t Hr;
    simpl in Hr.
  - injection Hr as <- <-. exists []. by rewrite app_nil_r.
  - destruct (RegisterName env k reg api) as [err|] eqn:Hreg.
    + injection Hr as <- <-. eexists. split; [done|].
      constructor; [by eauto|constructor].
    + apply IH in Hr as (evs & -> & Hevs).
      exists (EvRegisterName k api None :: evs).
      split; [by rewrite <- app_assoc|]. constructor; [by eauto|done].
Qed.

Lemma startJSONRPC_events env conf apis t t' r :
  startJSONRPC env conf apis t = (t', r) ->
  exists evs, t' = t ++ evs /\ Forall isRPCEvent evs.
Proof.
  unfold startJSONRPC. intros Hr.
  destruct (registerAll env RawSocket ∅ apis t) as [t1 r1] eqn:Hreg.
  apply registerAll_events in Hreg as (evs & -> & Hevs).
  assert (Forall isRPCEvent evs) as Hevs'.
  { eapply Forall_impl; [exact Hevs|]. by intros e (api & r' & ->). }
  destruct r1 as [err|].
  - injection Hr as <- <-. by eauto.
  - destruct (netListen env (RPCAddr conf) _) as [err|];
      injection Hr as <- <-; eexists;
      (split; [by rewrite <- !app_assoc|]);
      apply Forall_app; (split; [done|]); by repeat constructor.
Qed.

Lemma startHTTPRPC_events env conf apis wh cors t t' r :
  startHTTPRPC env conf apis wh cors t = (t', r) ->
  exists evs, t' = t ++ evs /\ Forall isHTTPEvent evs.
Proof.
  unfold startHTTPRPC. intros Hr.
  destruct (registerAll env HTTP ∅ apis _) as [t1 r1] eqn:Hreg.
  apply registerAll_events in Hreg as (evs & -> & Hevs).
  assert (Forall isHTTPEvent (EvNewHTTPServer wh cors :: evs)) as Hevs'.
  { constructor; [done|].
    eapply Forall_impl; [exact Hevs|]. by intros e (api & r' & ->). }
  destruct r1 as [err|].
  - injection Hr as <- <-. exists (EvNewHTTPServer wh cors :: evs).
    split; [by rewrite <- app_assoc|done].
  - destruct (netListen env (HTTPAddr conf) _) as [err|];
      injection Hr as <- <-.
    + exists ((EvNewHTTPServer wh cors :: evs)
              ++ [EvHandleHTTP; EvListen HTTP (HTTPAddr conf) (Some err)]).
      split; [by repeat (rewrite <- ?app_assoc; simpl)|].
      apply Forall_app. split; [done|]. by repeat constructor.
    + exists ((EvNewHTTPServer wh cors :: evs)
              ++ [EvHandleHTTP; EvListen HTTP (HTTPAddr conf) None;
                  EvServe HTTP]).
      split; [by repeat (rewrite <- ?app_assoc; simpl)|].
      apply Forall_app. split; [done|]. by repeat constructor.
Qed.

Lemma isHTTPEvent_isRPCEvent e : isHTTPEvent e -> isRPCEvent e.
Proof. by destruct e. Qed.

Lemma startRPC_events env h l conf t t' r :
  startRPC env h l conf t = (t', r) ->
  exists evs, t' = t ++ evs /\ Forall isRPCEvent evs.
Proof.
  unfold startRPC. intros Hr.
  destruct (startJSONRPC env conf (aggregateAPIs l) t) as [t1 r1] eqn:Hj.
  apply startJSONRPC_events in Hj as (evs1 & -> & Hevs1).
  destruct r1 as [err|].
  - injection Hr as <- <-. by eauto.
  - apply startHTTPRPC_events in Hr as (evs2 & -> & Hevs2).
    exists (evs1 ++ evs2). split; [by rewrite <- app_assoc|].
    apply Forall_app. split; [done|].
    eapply Forall_impl; [exact Hevs2|]. apply isHTTPEvent_isRPCEvent.
Qed.

(** The loop over [rest] when it returns an error. *)
Lemma startServices_Some running all i rest t t' err :
  startServices running all i rest t = (t', Some err) ->
  exists pre B post,
    rest = pre ++ B :: post /\
    allStart running pre t /\
    svcStart B running (t ++ started running pre) = Some err /\
    t' = stopQuietly (take (i + length pre) all)
           (t ++ started running pre
              ++ [EvSvcStart (sname B) running (Some err)])
         ++ [EvServerStop running].
Proof.
  revert i t; induction rest as [|s rest IH]; intros i t Hr; simpl in Hr;
    [done|].
  destruct (svcStart s running t) as [e|] eqn:Hs.
  - injection Hr as <- <-. exists [], s, rest. simpl.
    rewrite app_nil_r, Nat.add_0_r. repeat split; [|done].
    by intros k s' Hk.
  - apply IH in Hr as (pre & B & post & -> & Hall & HB & ->).
    exists (s :: pre), B, post. simpl. repeat split.
    + intros [|k] s' Hk; simpl in *.
      * injection Hk as <-. by rewrite app_nil_r.
      * specialize (Hall k s' Hk). by rewrite <- app_assoc in Hall.
    + by rewrite <- app_assoc in HB.
    + rewrite Nat.add_succ_r. by rewrite <- !app_assoc.
Qed.

(** The three ways in which Start on an Idle node fails. *)
Lemma Start_failure env h n t n' t' e :
  Idle n ->
  Start env h n t = Some (n', t', Some e) ->
  exists conf,
    configs h !! config n = Some conf /\
    n' = set_serverConfig (P2P conf) n /\
    ((exists e0,
        e = Err ErrServiceStartFailed /\
        t' = t ++ [EvServerStart (buildServer (P2P conf) (services n))
                     (Some e0)]) \/
     (exists pre B post E outs,
        services n = pre ++ B :: post /\ e = Err E /\
        length outs = length pre /\
        t' = t ++ [EvServerStart (buildServer (P2P conf) (services n)) None]
               ++ started (buildServer (P2P conf) (services n)) pre
               ++ [EvSvcStart (sname B)
                     (buildServer (P2P conf) (services n)) (Some E)]
               ++ stopped pre outs
               ++ [EvServerStop (buildServer (P2P conf) (services n))]) \/
     (exists E rpcEvs outs,
        e = Err E /\ Forall isRPCEvent rpcEvs /\
        length outs = length (services n) /\
        t' = t ++ [EvServerStart (buildServer (P2P conf) (services n)) None]
               ++ started (buildServer (P2P conf) (services n)) (services n)
               ++ rpcEvs
               ++ stopped (services n) outs
               ++ [EvServerStop (buildServer (P2P conf) (services n))])).
Proof.
  intros Hidle. unfold Start. rewrite Hidle.
  destruct (configs h !! config n) as [conf|] eqn:Hconf; [|done]. simpl.
  set (running := buildServer (P2P conf) (services n)).
  intros Hs. exists conf. split; [done|].
  destruct (p2pStart env running t) as [e0|] eqn:Hp2p.
  { injection Hs as <- <- <-. split; [done|]. left. by eauto. }
  destruct (startServices running (services n) 0 (services n) _)
    as [t1 [err|]] eqn:Hstart.
  { injection Hs as <- <- <-. split; [done|]. right. left.
    apply startServices_Some in Hstart
      as (pre & B & post & Hsvc & _ & _ & ->).
    exists pre, B, post, err. eexists. split; [done|]. split; [done|].
    split; [apply stopAnswers_length|].
    simpl. rewrite Hsvc at 1. rewrite take_app_length.
    rewrite stopQuietly_eq.
    repeat (rewrite <- ?app_assoc; simpl). done. }
  apply startServices_None in Hstart as [_ ->].
  destruct (startRPC env h (services n) conf _) as [t2 [err|]] eqn:Hrpc;
    [|done].
  injection Hs as <- <- <-. split; [done|]. right. right.
  apply startRPC_events in Hrpc as (evs & -> & Hevs).
  exists err, evs. eexists. split; [done|]. split; [done|].
  split; [apply stopAnswers_length|].
  rewrite stopQuietly_eq.
  repeat (rewrite <- ?app_assoc; simpl). done.
Qed.

(** X1. Start as a transition.  On an Idle node, whatever Start returns, it
    keeps the service list, the config pointer and the api list; it sets
    [serverConfig] to the P2P part of the config; and the node is Running
    afterwards exactly when the error returned is nil, with the server built
    from that config and the registered services. *)
Theorem Start_outcome env h n t n' t' r :
  Idle n ->
  Start env h n t = Some (n', t', r) ->
  services n' = services n /\ config n' = config n /\
  rpcAPIs n' = rpcAPIs n /\
  (exists conf,
     configs h !! config n = Some conf /\ serverConfig n' = P2P conf /\
     (r = None ->
      server n' = Some (buildServer (P2P conf) (services n)))) /\
  (r = None <-> Running n').
Proof.
  intros Hidle Hs. destruct r as [e|].
  - apply Start_failure in Hs as (conf & Hconf & -> & _); [|done].
    repeat split; [by exists conf|done|].
    intros [srv Hsrv]. simpl in Hsrv. by rewrite Hidle in Hsrv.
  - apply Start_success in Hs as (_ & conf & Hconf & -> & _).
    repeat split; [by exists conf|by eexists].
Qed.

Lemma Start_outcome_witness :
  services (Sample.afterStart [Sample.A; Sample.C]).1
    = services (Sample.nodeWith [Sample.A; Sample.C]) /\
  config (Sample.afterStart [Sample.A; Sample.C]).1
    = config (Sample.nodeWith [Sample.A; Sample.C]) /\
  rpcAPIs (Sample.afterStart [Sample.A; Sample.C]).1
    = rpcAPIs (Sample.nodeWith [Sample.A; Sample.C]) /\
  (exists conf,
     configs Sample.heap !! config (Sample.nodeWith [Sample.A; Sample.C])
       = Some conf /\
     serverConfig (Sample.afterStart [Sample.A; Sample.C]).1 = P2P conf /\
     (@None error = None ->
      server (Sample.afterStart [Sample.A; Sample.C]).1
        = Some (buildServer (P2P conf)
                  (services (Sample.nodeWith [Sample.A; Sample.C]))))) /\
  (@None error = None <-> Running (Sample.afterStart [Sample.A; Sample.C]).1).
Proof.
  apply (Start_outcome Sample.env Sample.heap
           (Sample.nodeWith [Sample.A; Sample.C]) []
           (Sample.afterStart [Sample.A; Sample.C]).1
           (Sample.afterStart [Sample.A; Sample.C]).2 None).
  - reflexivity.
  - vm_compute. reflexivity.
Defined.

(** ** Who was started and who was stopped *)

Lemma startedNames_started running l :
  startedNames (started running l) = sname <$> l.
Proof. induction l as [|s l IH]; [done|]. simpl. f_equal. exact IH. Qed.

Lemma stoppedNames_started running l : stoppedNames (started running l) = [].
Proof. by induction l. Qed.

Lemma startedNames_stopped l outs : startedNames (stopped l outs) = [].
Proof.
  revert outs; induction l as [|s l IH]; intros [|r outs]; simpl; done.
Qed.

Lemma stoppedNames_stopped l outs :
  length outs = length l -> stoppedNames (stopped l outs) = sname <$> l.
Proof.
  revert outs; induction l as [|s l IH]; intros [|r outs] Hlen; simpl in *;
    try done.
  f_equal. apply IH. lia.
Qed.

Lemma names_of_RPC_events evs :
  Forall isRPCEvent evs -> startedNames evs = [] /\ stoppedNames evs = [].
Proof.
  induction 1 as [|e evs He _ [IH1 IH2]]; [done|].
  by destruct e.
Qed.

Lemma registered_is_RPC k apis : Forall isRPCEvent (registered k apis).
Proof. induction apis; by constructor. Qed.

(** Who is started and stopped by the calls of a successful Start. *)
Lemma names_of_success running l apis ev1 ev2 ev3 ev4 ev5 ev6 :
  isRPCEvent ev1 -> isRPCEvent ev2 -> isRPCEvent ev3 ->
  isRPCEvent ev4 -> isRPCEvent ev5 -> isRPCEvent ev6 ->
  startedNames
    ([EvServerStart running None] ++ started running l
       ++ registered RawSocket apis ++ [ev1; ev2; ev3]
       ++ registered HTTP apis ++ [ev4; ev5; ev6]) = sname <$> l /\
  stoppedNames
    ([EvServerStart running None] ++ started running l
       ++ registered RawSocket apis ++ [ev1; ev2; ev3]
       ++ registered HTTP apis ++ [ev4; ev5; ev6]) = [].
Proof.
  intros He1 He2 He3 He4 He5 He6.
  assert (Forall isRPCEvent
            (registered RawSocket apis ++ [ev1; ev2; ev3]
               ++ registered HTTP apis ++ [ev4; ev5; ev6])) as Hrpc.
  { repeat (apply Forall_app; split);
      auto using registered_is_RPC; by repeat constructor. }
  apply names_of_RPC_events in Hrpc as [Hn1 Hn2].
  unfold startedNames, stoppedNames in *.
  rewrite (omap_app _ [_]), (omap_app _ (started running l)), Hn1.
  rewrite (omap_app _ [_]), (omap_app _ (started running l)), Hn2.
  fold (startedNames (started running l)) (stoppedNames (started running l)).
  rewrite startedNames_started, stoppedNames_started. simpl.
  by rewrite app_nil_r.
Qed.

(** X2. What a successful Start hands to its collaborators.  The transport
    is started with the protocol lists of the services concatenated in
    registration order; each service is then started once, in registration
    order, with that transport; both rpc servers get the api lists of the
    services concatenated in registration order, the raw-socket one before
    it listens on [RPCAddr], the HTTP one (made with the white hosts and
    cors origins of the config) before it listens on [HTTPAddr]. *)
Theorem Start_success_aggregates env h n t n' t' :
  Start env h n t = Some (n', t', None) ->
  exists conf srv,
    configs h !! config n = Some conf /\
    srv = {| srvConfig := P2P conf;
             Protocols := concat (map svcProtocols (services n)) |} /\
    server n' = Some srv /\
    drop (length t) t' =
      [EvServerStart srv None]
        ++ started srv (services n)
        ++ registered RawSocket (concat (map svcAPIs (services n)))
        ++ [EvListen RawSocket (RPCAddr conf) None; EvServe RawSocket;
            EvNewHTTPServer (readSlice h (HTTPWhiteHost conf))
              (readSlice h (HTTPCors conf))]
        ++ registered HTTP (concat (map svcAPIs (services n)))
        ++ [EvHandleHTTP; EvListen HTTP (HTTPAddr conf) None; EvServe HTTP].
Proof.
  intros Hs. apply Start_success in Hs as (_ & conf & Hconf & -> & ->).
  exists conf. eexists. split; [done|]. split; [reflexivity|].
  rewrite drop_app_length, buildServer_eq, aggregateAPIs_eq. by split.
Qed.

Lemma Start_success_aggregates_witness :
  exists conf srv,
    configs Sample.heap !! config (Sample.nodeWith [Sample.A; Sample.B'])
      = Some conf /\
    srv = {| srvConfig := P2P conf;
             Protocols :=
               concat (map svcProtocols
                         (services (Sample.nodeWith [Sample.A; Sample.B']))) |}
    /\
    server (Sample.afterStart [Sample.A; Sample.B']).1 = Some srv /\
    drop (length (@nil Event)) (Sample.afterStart [Sample.A; Sample.B']).2 =
      [EvServerStart srv None]
        ++ started srv (services (Sample.nodeWith [Sample.A; Sample.B']))
        ++ registered RawSocket
             (concat (map svcAPIs
                        (services (Sample.nodeWith [Sample.A; Sample.B']))))
        ++ [EvListen RawSocket (RPCAddr conf) None; EvServe RawSocket;
            EvNewHTTPServer (readSlice Sample.heap (HTTPWhiteHost conf))
              (readSlice Sample.heap (HTTPCors conf))]
        ++ registered HTTP
             (concat (map svcAPIs
                        (services (Sample.nodeWith [Sample.A; Sample.B']))))
        ++ [EvHandleHTTP; EvListen HTTP (HTTPAddr conf) None; EvServe HTTP].
Proof.
  apply (Start_success_aggregates Sample.env Sample.heap
           (Sample.nodeWith [Sample.A; Sample.B']) []
           (Sample.afterStart [Sample.A; Sample.B']).1
           (Sample.afterStart [Sample.A; Sample.B']).2).
  vm_compute. reflexivity.
Defined.

(** X3. A failed Start leaves nothing started.  When Start on an Idle node
    returns an error, the node is Idle, and the services it stopped are
    exactly the services whose Start had answered nil: the same names, in
    the same order, a prefix of the registered services.  Either the
    transport did not start and that failed call is the only one Start made
    (the error is then [ErrServiceStartFailed]), or the transport started
    and stopping it is the last call Start made. *)
Theorem Start_failure_unwinds env h n t n' t' e :
  Idle n ->
  Start env h n t = Some (n', t', Some e) ->
  Idle n' /\
  stoppedNames (drop (length t) t') = startedNames (drop (length t) t') /\
  (exists k,
     startedNames (drop (length t) t') = sname <$> take k (services n)) /\
  ((exists running e0,
      e = Err ErrServiceStartFailed /\
      drop (length t) t' = [EvServerStart running (Some e0)]) \/
   (exists running,
      head (drop (length t) t') = Some (EvServerStart running None) /\
      last (drop (length t) t') = Some (EvServerStop running))).
Proof.
  intros Hidle Hs.
  apply Start_failure in Hs as (conf & Hconf & -> & Hcases); [|done].
  split; [done|].
  set (running := buildServer (P2P conf) (services n)) in *.
  destruct Hcases as [(e0 & -> & ->)
                     |[(pre & B & post & E & outs & Hsvc & -> & Hlen & ->)
                      |(E & evs & outs & -> & Hevs & Hlen & ->)]];
    rewrite drop_app_length.
  - split; [done|]. split; [by exists 0|]. left. by eauto.
  - unfold startedNames, stoppedNames. rewrite !omap_app.
    fold (startedNames (started running pre))
         (stoppedNames (started running pre))
         (startedNames (stopped pre outs)) (stoppedNames (stopped pre outs)).
    rewrite startedNames_started, stoppedNames_started,
      startedNames_stopped, stoppedNames_stopped by done.
    simpl. rewrite !app_nil_r. split; [done|]. split.
    + exists (length pre). by rewrite Hsvc, take_app_length.
    + right. exists running. split; [done|].
      rewrite !app_comm_cons, !app_assoc. apply last_snoc.
  - destruct (names_of_RPC_events evs Hevs) as [Hn1 Hn2].
    unfold startedNames, stoppedNames. rewrite !omap_app.
    fold (startedNames (started running (services n)))
         (stoppedNames (started running (services n)))
         (startedNames evs) (stoppedNames evs)
         (startedNames (stopped (services n) outs))
         (stoppedNames (stopped (services n) outs)).
    rewrite startedNames_started, stoppedNames_started,
      startedNames_stopped, stoppedNames_stopped, Hn1, Hn2 by done.
    simpl. rewrite !app_nil_r. split; [done|]. split.
    + exists (length (services n)). by rewrite firstn_all.
    + right. exists running. split; [done|].
      rewrite !app_comm_cons, !app_assoc. apply last_snoc.
Qed.

Lemma Start_failure_unwinds_witness :
  Idle (set_serverConfig {| p2pTag := "p2p" |}
          (Sample.nodeWith [Sample.A; Sample.C; Sample.B; Sample.D])) /\
  stoppedNames
    (drop (length (@nil Event))
       [EvServerStart {| srvConfig := {| p2pTag := "p2p" |};
                         Protocols := ["A"; "C"; "B"; "D"] |} None;
        EvSvcStart "A" {| srvConfig := {| p2pTag := "p2p" |};
                          Protocols := ["A"; "C"; "B"; "D"] |} None;
        EvSvcStart "C" {| srvConfig := {| p2pTag := "p2p" |};
                          Protocols := ["A"; "C"; "B"; "D"] |} None;
        EvSvcStart "B" {| srvConfig := {| p2pTag := "p2p" |};
                          Protocols := ["A"; "C"; "B"; "D"] |}
          (Some Sample.E);
        EvSvcStop "A" None; EvSvcStop "C" None;
        EvServerStop {| srvConfig := {| p2pTag := "p2p" |};
                        Protocols := ["A"; "C"; "B"; "D"] |}]) =
  startedNames
    (drop (length (@nil Event))
       [EvServerStart {| srvConfig := {| p2pTag := "p2p" |};
                         Protocols := ["A"; "C"; "B"; "D"] |} None;
        EvSvcStart "A" {| srvConfig := {| p2pTag := "p2p" |};
                          Protocols := ["A"; "C"; "B"; "D"] |} None;
        EvSvcStart "C" {| srvConfig := {| p2pTag := "p2p" |};
                          Protocols := ["A"; "C"; "B"; "D"] |} None;
        EvSvcStart "B" {| srvConfig := {| p2pTag := "p2p" |};
                          Protocols := ["A"; "C"; "B"; "D"] |}
          (Some Sample.E);
        EvSvcStop "A" None; EvSvcStop "C" None;
        EvServerStop {| srvConfig := {| p2pTag := "p2p" |};
                        Protocols := ["A"; "C"; "B"; "D"] |}]).
Proof.
  pose proof (Start_failure_unwinds Sample.env Sample.heap
                (Sample.nodeWith [Sample.A; Sample.C; Sample.B; Sample.D]) []
                (set_serverConfig {| p2pTag := "p2p" |}
                   (Sample.nodeWith [Sample.A; Sample.C; Sample.B; Sample.D]))
                _ (Err Sample.E) eq_refl eq_refl) as (H1 & H2 & _).
  exact (conj H1 H2).
Defined.

(** ** Idle nodes, and sequences of operations *)

Lemma Restart_idle env h n t :
  Idle n -> Restart env h n t = Some (n, t, Some (Err ErrNodeStopped)).
Proof. intros Hidle. unfold Restart. by rewrite (Stop_idle n t Hidle). Qed.

Lemma Stop_leaves_idle n t n1 t1 r : Stop n t = (n1, t1, r) -> Idle n1.
Proof.
  destruct (server n) as [srv|] eqn:Hsrv.
  - rewrite (Stop_running_eq n t srv Hsrv). by intros [= <- _ _].
  - rewrite (Stop_idle n t Hsrv). by intros [= <- _ _].
Qed.

(** X4. Nothing to stop.  On an Idle node Stop and Restart both return
    [ErrNodeStopped], leave the node as it is and make no call.  Any Stop,
    on a Running node or not, leaves such a node: Stop or Restart right
    after it are rejected in that way. *)
Theorem Idle_lockout env h n t :
  (Idle n ->
   Stop n t = (n, t, Some (Err ErrNodeStopped)) /\
   Restart env h n t = Some (n, t, Some (Err ErrNodeStopped))) /\
  (forall n1 t1 r, Stop n t = (n1, t1, r) ->
     Idle n1 /\
     Stop n1 t1 = (n1, t1, Some (Err ErrNodeStopped)) /\
     Restart env h n1 t1 = Some (n1, t1, Some (Err ErrNodeStopped))).
Proof.
  split.
  - intros Hidle. split; [by apply Stop_idle|by apply Restart_idle].
  - intros n1 t1 r Hstop. apply Stop_leaves_idle in Hstop.
    split; [done|]. split; [by apply Stop_idle|by apply Restart_idle].
Qed.

Lemma Idle_lockout_witness :
  (Stop Sample.node0 [] = (Sample.node0, [], Some (Err ErrNodeStopped)) /\
   Restart Sample.env Sample.heap Sample.node0 []
     = Some (Sample.node0, [], Some (Err ErrNodeStopped))) /\
  (Idle (Stop (Sample.afterStart [Sample.A; Sample.B']).1 []).1.1 /\
   Stop (Stop (Sample.afterStart [Sample.A; Sample.B']).1 []).1.1
        (Stop (Sample.afterStart [Sample.A; Sample.B']).1 []).1.2
     = ((Stop (Sample.afterStart [Sample.A; Sample.B']).1 []).1.1,
        (Stop (Sample.afterStart [Sample.A; Sample.B']).1 []).1.2,
        Some (Err ErrNodeStopped)) /\
   Restart Sample.env Sample.heap
     (Stop (Sample.afterStart [Sample.A; Sample.B']).1 []).1.1
     (Stop (Sample.afterStart [Sample.A; Sample.B']).1 []).1.2
     = Some ((Stop (Sample.afterStart [Sample.A; Sample.B']).1 []).1.1,
             (Stop (Sample.afterStart [Sample.A; Sample.B']).1 []).1.2,
             Some (Err ErrNodeStopped))).
Proof.
  split.
  - apply (proj1 (Idle_lockout Sample.env Sample.heap Sample.node0 [])).
    reflexivity.
  - apply (proj2 (Idle_lockout Sample.env Sample.heap
                    (Sample.afterStart [Sample.A; Sample.B']).1 [])
             _ _ (Some (StopError {[ "*b.Service" := Sample.F ]}))).
    vm_compute. reflexivity.
Defined.

(** X5. Registering several services.  On an Idle node every Register of a
    sequence returns nil and the services are appended to the list in the
    order of the calls, nothing else of the node changing; on a Running node
    every one of them returns [ErrNodeRunning] and the node stays as it
    is. *)
Theorem RegisterAll_outcome n l :
  (Idle n ->
   exists n',
     RegisterAll n l = (n', replicate (length l) None) /\
     services n' = services n ++ l /\
     Idle n' /\ config n' = config n /\
     serverConfig n' = serverConfig n /\ rpcAPIs n' = rpcAPIs n) /\
  (Running n ->
   RegisterAll n l = (n, replicate (length l) (Some (Err ErrNodeRunning)))).
Proof.
  split.
  - revert n; induction l as [|s l IH]; intros n Hidle; simpl.
    + exists n. by rewrite app_nil_r.
    + unfold Register. rewrite Hidle.
      destruct (IH (set_services (services n ++ [s]) n) Hidle)
        as (n' & -> & Hsvc & Hidle' & Hcfg & Hsc & Hapis).
      exists n'. simpl in *. rewrite Hsvc, <- app_assoc. done.
  - intros Hrun. induction l as [|s l IH]; simpl; [done|].
    rewrite (Register_running n s Hrun). by rewrite IH.
Qed.

Lemma RegisterAll_outcome_witness :
  (exists n',
     RegisterAll Sample.node0 [Sample.A; Sample.C]
       = (n', replicate (length [Sample.A; Sample.C]) None) /\
     services n' = services Sample.node0 ++ [Sample.A; Sample.C] /\
     Idle n' /\ config n' = config Sample.node0 /\
     serverConfig n' = serverConfig Sample.node0 /\
     rpcAPIs n' = rpcAPIs Sample.node0) /\
  RegisterAll (Sample.afterStart [Sample.A]).1 [Sample.C; Sample.D]
    = ((Sample.afterStart [Sample.A]).1,
       replicate (length [Sample.C; Sample.D]) (Some (Err ErrNodeRunning))).
Proof.
  split.
  - apply (proj1 (RegisterAll_outcome Sample.node0 [Sample.A; Sample.C])).
    reflexivity.
  - apply (proj2 (RegisterAll_outcome (Sample.afterStart [Sample.A]).1
                    [Sample.C; Sample.D])).
    eexists. vm_compute. reflexivity.
Defined.

(** X6. A stopped node starts from scratch.  After Stop on a Running node
    (whether or not a service failed to stop), registering the services [l]
    and starting the node successfully starts exactly the services of [l],
    in that order: the services registered before the Stop are gone, and
    [l] is the whole service list of the Running node. *)
Theorem Stop_then_register_start env h n t n1 t1 r l n2 rs n3 t3 :
  Running n ->
  Stop n t = (n1, t1, r) ->
  RegisterAll n1 l = (n2, rs) ->
  Start env h n2 t1 = Some (n3, t3, None) ->
  rs = replicate (length l) None /\
  services n3 = l /\ Running n3 /\
  startedNames (drop (length t1) t3) = sname <$> l /\
  stoppedNames (drop (length t1) t3) = [].
Proof.
  intros [srv Hsrv] Hstop Hreg Hstart.
  rewrite (Stop_running_eq n t srv Hsrv) in Hstop.
  injection Hstop as <- <- _.
  destruct (proj1 (RegisterAll_outcome
                     (set_server None (set_services [] n)) l))
    as (n2' & Hreg' & Hsvc & _); [done|].
  rewrite Hreg in Hreg'. injection Hreg' as <- ->. simpl in Hsvc.
  split; [done|].
  apply Start_success in Hstart as (_ & conf & _ & -> & ->).
  split; [done|]. split; [by eexists|].
  rewrite drop_app_length, Hsvc.
  by apply names_of_success.
Qed.

Lemma Stop_then_register_start_witness :
  replicate (length [Sample.C; Sample.D]) (@None error)
    = replicate (length [Sample.C; Sample.D]) None /\
  services
    (set_server
       (Some {| srvConfig := {| p2pTag := "p2p" |}; Protocols := ["C"; "D"] |})
       (fold_left (fun n s => (Register n s).1) [Sample.C; Sample.D]
          (Stop (Sample.afterStart [Sample.A; Sample.B']).1 []).1.1))
    = [Sample.C; Sample.D] /\
  Running
    (set_server
       (Some {| srvConfig := {| p2pTag := "p2p" |}; Protocols := ["C"; "D"] |})
       (fold_left (fun n s => (Register n s).1) [Sample.C; Sample.D]
          (Stop (Sample.afterStart [Sample.A; Sample.B']).1 []).1.1)) /\
  startedNames
    (drop (length (Stop (Sample.afterStart [Sample.A; Sample.B']).1 []).1.2)
       (default (Sample.node0, [], None)
          (Start Sample.env Sample.heap
             (fold_left (fun n s => (Register n s).1) [Sample.C; Sample.D]
                (Stop (Sample.afterStart [Sample.A; Sample.B']).1 []).1.1)
             (Stop (Sample.afterStart [Sample.A; Sample.B']).1 []).1.2)).1.2)
    = sname <$> [Sample.C; Sample.D] /\
  stoppedNames
    (drop (length (Stop (Sample.afterStart [Sample.A; Sample.B']).1 []).1.2)
       (default (Sample.node0, [], None)
          (Start Sample.env Sample.heap
             (fold_left (fun n s => (Register n s).1) [Sample.C; Sample.D]
                (Stop (Sample.afterStart [Sample.A; Sample.B']).1 []).1.1)
             (Stop (Sample.afterStart [Sample.A; Sample.B']).1 []).1.2)).1.2)
    = [].
Proof.
  apply (Stop_then_register_start Sample.env Sample.heap
           (Sample.afterStart [Sample.A; Sample.B']).1 []
           (Stop (Sample.afterStart [Sample.A; Sample.B']).1 []).1.1
           (Stop (Sample.afterStart [Sample.A; Sample.B']).1 []).1.2
           (Some (StopError {[ "*b.Service" := Sample.F ]}))
           [Sample.C; Sample.D]
           (fold_left (fun n s => (Register n s).1) [Sample.C; Sample.D]
              (Stop (Sample.afterStart [Sample.A; Sample.B']).1 []).1.1)).
  - eexists. vm_compute. reflexivity.
  - vm_compute. reflexivity.
  - vm_compute. reflexivity.
  - vm_compute. reflexivity.
Defined.

(** X7. Start, then Stop.  A Stop that follows a successful Start calls the
    Stop of exactly the services that Start started, once each and in the
    order they were started, and then stops the very server that Start
    started.  The node is Idle again, but not as it was before Start: its
    service list is empty. *)
Theorem Start_then_Stop env h n t n1 t1 :
  Start env h n t = Some (n1, t1, None) ->
  exists srv n2 outs r,
    server n1 = Some srv /\
    EvServerStart srv None ∈ drop (length t) t1 /\
    Stop n1 t1 = (n2, t1 ++ stopped (services n) outs ++ [EvServerStop srv], r)
    /\
    length outs = length (services n) /\
    startedNames (drop (length t) t1) = sname <$> services n /\
    stoppedNames (stopped (services n) outs ++ [EvServerStop srv])
      = sname <$> services n /\
    Idle n2 /\ services n2 = [] /\ config n2 = config n.
Proof.
  intros Hs. apply Start_success in Hs as (_ & conf & _ & -> & ->).
  set (running := buildServer (P2P conf) (services n)).
  exists running. eexists _, (stopAnswers (services n) _), _.
  split; [done|]. rewrite drop_app_length.
  split; [apply list_elem_of_here|].
  split.
  { exact (Stop_running_eq
             (set_server (Some running) (set_serverConfig (P2P conf) n))
             _ running eq_refl). }
  split; [apply stopAnswers_length|].
  split; [by apply names_of_success|].
  split; [|done].
  unfold stoppedNames. rewrite omap_app. simpl. rewrite app_nil_r.
  apply stoppedNames_stopped, stopAnswers_length.
Qed.

Lemma Start_then_Stop_witness :
  exists srv n2 outs r,
    server (Sample.afterStart [Sample.A; Sample.B']).1 = Some srv /\
    EvServerStart srv None
      ∈ drop (length (@nil Event)) (Sample.afterStart [Sample.A; Sample.B']).2
    /\
    Stop (Sample.afterStart [Sample.A; Sample.B']).1
      (Sample.afterStart [Sample.A; Sample.B']).2
      = (n2,
         (Sample.afterStart [Sample.A; Sample.B']).2
           ++ stopped (services (Sample.nodeWith [Sample.A; Sample.B'])) outs
           ++ [EvServerStop srv], r) /\
    length outs = length (services (Sample.nodeWith [Sample.A; Sample.B'])) /\
    startedNames
      (drop (length (@nil Event)) (Sample.afterStart [Sample.A; Sample.B']).2)
      = sname <$> services (Sample.nodeWith [Sample.A; Sample.B']) /\
    stoppedNames
      (stopped (services (Sample.nodeWith [Sample.A; Sample.B'])) outs
         ++ [EvServerStop srv])
      = sname <$> services (Sample.nodeWith [Sample.A; Sample.B']) /\
    Idle n2 /\ services n2 = [] /\
    config n2 = config (Sample.nodeWith [Sample.A; Sample.B']).
Proof.
  apply (Start_then_Stop Sample.env Sample.heap
           (Sample.nodeWith [Sample.A; Sample.B']) []).
  vm_compute. reflexivity.
Defined.

(** X8. A Restart that cannot stop a service does not restart.  When some
    service of a Running node fails to stop, Restart stops every service and
    the transport, returns the [StopError] and makes no call of Start: the
    node is left Idle, with no services. *)
Theorem Restart_stop_failure env h n t srv outs :
  server n = Some srv ->
  answersOf (services n) t outs ->
  Exists (fun o => o <> None) outs ->
  exists n' m,
    Restart env h n t =
      Some (n', t ++ stopped (services n) outs ++ [EvServerStop srv],
            Some (StopError m)) /\
    Idle n' /\ services n' = [].
Proof.
  intros Hsrv Hans Hex. apply answersOf_unique in Hans as ->.
  unfold Restart. rewrite (Stop_running_eq n t srv Hsrv).
  destruct (decide _) as [Hsize|Hsize].
  { eexists _, _. split; [reflexivity|by split]. }
  assert ((stopServices (services n) t ∅).2 = ∅) as Hempty.
  { apply map_size_empty_iff. lia. }
  apply stopServices_empty in Hempty as [_ Hall].
  apply Exists_exists in Hex as (o & Hin & Ho).
  rewrite Forall_forall in Hall. by specialize (Hall o Hin).
Qed.

Lemma Restart_stop_failure_witness :
  exists n' m,
    Restart Sample.env Sample.heap
      (Sample.afterStart [Sample.A; Sample.B'; Sample.C]).1 [] =
      Some (n',
            [] ++ stopped
                    (services
                       (Sample.afterStart [Sample.A; Sample.B'; Sample.C]).1)
                    [None; Some Sample.F; None]
               ++ [EvServerStop
                     {| srvConfig := {| p2pTag := "p2p" |};
                        Protocols := ["A"; "B"; "C"] |}],
            Some (StopError m)) /\
    Idle n' /\ services n' = [].
Proof.
  apply (Restart_stop_failure Sample.env Sample.heap
           (Sample.afterStart [Sample.A; Sample.B'; Sample.C]).1 []).
  - vm_compute. reflexivity.
  - split; [reflexivity|].
    intros k s Hk.
    repeat (destruct k as [|k]; [injection Hk as <-; reflexivity|]).
    discriminate Hk.
  - apply Exists_cons_tl, Exists_cons_hd. discriminate.
Defined.

(** X9. A Start that fails at the HTTP listener.  When the raw-socket
    listener came up and [startHTTPRPC] then fails, Start returns that error
    and the node is Idle; yet the raw-socket listener was bound and its
    accept loop launched, and every call Start makes afterwards is a call of
    the HTTP server, the Stop of a service or the Stop of the transport:
    none of them is about the raw-socket listener. *)
Theorem Start_http_failure env h n t conf running t2 t3 e :
  Idle n ->
  configs h !! config n = Some conf ->
  running = buildServer (P2P conf) (services n) ->
  p2pStart env running t = None ->
  allStart running (services n) (t ++ [EvServerStart running None]) ->
  startJSONRPC env conf (aggregateAPIs (services n))
    (t ++ [EvServerStart running None] ++ started running (services n))
    = (t2, None) ->
  startHTTPRPC env conf (aggregateAPIs (services n))
    (readSlice h (HTTPWhiteHost conf)) (readSlice h (HTTPCors conf)) t2
    = (t3, Some e) ->
  exists n' httpEvs outs,
    Start env h n t =
      Some (n',
            t ++ [EvServerStart running None]
              ++ started running (services n)
              ++ registered RawSocket (aggregateAPIs (services n))
              ++ [EvListen RawSocket (RPCAddr conf) None; EvServe RawSocket]
              ++ httpEvs
              ++ stopped (services n) outs
              ++ [EvServerStop running],
            Some (Err e)) /\
    Forall isHTTPEvent httpEvs /\
    length outs = length (services n) /\
    Idle n'.
Proof.
  intros Hidle Hconf -> Hp2p Hall Hjson Hhttp.
  set (running := buildServer (P2P conf) (services n)) in *.
  assert (startRPC env h (services n) conf
            (t ++ [EvServerStart running None]
               ++ started running (services n)) = (t3, Some e)) as Hrpc.
  { unfold startRPC. by rewrite Hjson. }
  rewrite (Start_rpc_rollback_eq env h n t conf t3 e Hidle Hconf Hp2p Hall
             Hrpc).
  unfold startJSONRPC in Hjson.
  destruct (registerAll env RawSocket ∅ _ _) as [t4 [err|]] eqn:Hreg;
    [done|].
  apply registerAll_None in Hreg as ->.
  destruct (netListen env (RPCAddr conf) _) as [err|]; [done|].
  injection Hjson as <-.
  apply startHTTPRPC_events in Hhttp as (httpEvs & -> & Hevs).
  eexists _, httpEvs, _. split.
  { repeat (rewrite <- ?app_assoc; simpl). reflexivity. }
  split; [done|]. split; [apply stopAnswers_length|done].
Qed.

Lemma Start_http_failure_witness :
  exists n' httpEvs outs,
    Start SampleEnvs.envHTTPBusy Sample.heap
      (Sample.nodeWith [Sample.A; Sample.C]) [] =
      Some (n',
            [] ++ [EvServerStart
                     {| srvConfig := {| p2pTag := "p2p" |};
                        Protocols := ["A"; "C"] |} None]
              ++ started {| srvConfig := {| p2pTag := "p2p" |};
                            Protocols := ["A"; "C"] |}
                   (services (Sample.nodeWith [Sample.A; Sample.C]))
              ++ registered RawSocket
                   (aggregateAPIs
                      (services (Sample.nodeWith [Sample.A; Sample.C])))
              ++ [EvListen RawSocket (RPCAddr Sample.conf) None;
                  EvServe RawSocket]
              ++ httpEvs
              ++ stopped (services (Sample.nodeWith [Sample.A; Sample.C]))
                   outs
              ++ [EvServerStop
                    {| srvConfig := {| p2pTag := "p2p" |};
                       Protocols := ["A"; "C"] |}],
            Some (Err (ErrExt
                         "listen tcp 127.0.0.1:65027: address already in use")))
    /\
    Forall isHTTPEvent httpEvs /\
    length outs = length (services (Sample.nodeWith [Sample.A; Sample.C])) /\
    Idle n'.
Proof.
  apply (Start_http_failure SampleEnvs.envHTTPBusy Sample.heap
           (Sample.nodeWith [Sample.A; Sample.C]) [] Sample.conf
           {| srvConfig := {| p2pTag := "p2p" |}; Protocols := ["A"; "C"] |}
           [EvServerStart
              {| srvConfig := {| p2pTag := "p2p" |};
                 Protocols := ["A"; "C"] |} None;
            EvSvcStart "A"
              {| srvConfig := {| p2pTag := "p2p" |};
                 Protocols := ["A"; "C"] |} None;
            EvSvcStart "C"
              {| srvConfig := {| p2pTag := "p2p" |};
                 Protocols := ["A"; "C"] |} None;
            EvRegisterName RawSocket Sample.chainAPI None;
            EvListen RawSocket "127.0.0.1:55027" None; EvServe RawSocket]
           [EvServerStart
              {| srvConfig := {| p2pTag := "p2p" |};
                 Protocols := ["A"; "C"] |} None;
            EvSvcStart "A"
              {| srvConfig := {| p2pTag := "p2p" |};
                 Protocols := ["A"; "C"] |} None;
            EvSvcStart "C"
              {| srvConfig := {| p2pTag := "p2p" |};
                 Protocols := ["A"; "C"] |} None;
            EvRegisterName RawSocket Sample.chainAPI None;
            EvListen RawSocket "127.0.0.1:55027" None; EvServe RawSocket;
            EvNewHTTPServer ["localhost"] ["https://seele.example"];
            EvRegisterName HTTP Sample.chainAPI None;
            EvHandleHTTP;
            EvListen HTTP "127.0.0.1:65027"
              (Some (ErrExt
                       "listen tcp 127.0.0.1:65027: address already in use"))]).
  - reflexivity.
  - vm_compute. reflexivity.
  - reflexivity.
  - reflexivity.
  - all_start.
  - vm_compute. reflexivity.
  - vm_compute. reflexivity.
Defined.

(** ** New *)

(** X10. What New makes.  [New] panics exactly when its argument points to
    no config.  Otherwise the node is Idle with no services; its config
    pointer is a cell that was not allocated before, so it differs from the
    caller's pointer; that cell holds the struct the caller's pointer held;
    every cell the caller had and every backing array is as it was; and,
    read through its slices, the node's config is the caller's config of
    that moment. *)
Theorem New_snapshot h conf :
  (New h conf = None <-> configs h !! conf = None) /\
  (forall h1 n, New h conf = Some (h1, n) ->
     Idle n /\ services n = [] /\
     configs h !! config n = None /\ config n <> conf /\
     configs h1 !! config n = configs h !! conf /\
     (forall p, p <> config n -> configs h1 !! p = configs h !! p) /\
     arrays h1 = arrays h /\
     storedConfig h1 n = configAt h conf).
Proof.
  unfold New. split.
  - by destruct (configs h !! conf).
  - intros h1 n Hnew.
    destruct (configs h !! conf) as [c|] eqn:Hc; [|done].
    injection Hnew as <- <-. simpl.
    assert (configs h !! fresh (dom (configs h)) = None) as Hfresh.
    { apply not_elem_of_dom, is_fresh. }
    repeat split; try done.
    + intros Heq. rewrite Heq in Hfresh. congruence.
    + by rewrite lookup_insert_eq.
    + intros p Hp. by rewrite lookup_insert_ne.
    + unfold storedConfig, configAt, readSlice. simpl.
      by rewrite lookup_insert_eq, Hc.
Qed.

Lemma New_snapshot_witness :
  Idle Sample.node0 /\ services Sample.node0 = [] /\
  configs Sample.heap0 !! config Sample.node0 = None /\
  config Sample.node0 <> 1%N /\
  configs Sample.heap !! config Sample.node0 = configs Sample.heap0 !! 1%N /\
  (forall p, p <> config Sample.node0 ->
     configs Sample.heap !! p = configs Sample.heap0 !! p) /\
  arrays Sample.heap = arrays Sample.heap0 /\
  storedConfig Sample.heap Sample.node0 = configAt Sample.heap0 1.
Proof.
  apply (proj2 (New_snapshot Sample.heap0 1) Sample.heap Sample.node0).
  vm_compute. reflexivity.
Defined.

(* ================================================================== *)
(** * The debug API *)

Section DebugAPIFacts.

Context {Address : Type} `{Countable Address}.
Variables Tx Out : Type.
Variable ToHex : Address -> string.
Variable rpcOutputTx : Tx -> Out.
Variable nilOut : Out.

(** The loop fills the cells from [i] on and leaves those before [i]. *)
Lemma fillTrans_eq i txs (trans : list Out) :
  length trans = i + length txs ->
  fillTrans Tx Out rpcOutputTx i txs trans
    = take i trans ++ (rpcOutputTx <$> txs).
Proof.
  revert i trans; induction txs as [|tran txs IH]; intros i trans Hlen;
    simpl in *.
  - rewrite app_nil_r, take_ge; [done|lia].
  - rewrite IH by (rewrite length_insert; lia).
    rewrite (take_S_r _ _ (rpcOutputTx tran)).
    + rewrite take_insert_ge by lia. by rewrite <- app_assoc.
    + apply list_lookup_insert_eq. lia.
Qed.

Lemma makeTrans_eq txs :
  makeTrans Tx Out rpcOutputTx nilOut txs = rpcOutputTx <$> txs.
Proof.
  unfold makeTrans. rewrite fillTrans_eq; [done|].
  by rewrite length_replicate.
Qed.

Let step (content : gmap string (list Out)) (e : Address * list Tx) :=
  let '(adress, txs) := e in
  <[ToHex adress := makeTrans Tx Out rpcOutputTx nilOut txs]> content.

Lemma fill_lookup_Some order m0 k outs :
  fold_left step order m0 !! k = Some outs ->
  m0 !! k = Some outs \/
  exists a txs, (a, txs) ∈ order /\ k = ToHex a.
Proof.
  revert m0; induction order as [|[a txs] order IH]; intros m0 Hk;
    simpl in Hk; [by left|].
  apply IH in Hk as [Hk|(a' & txs' & Hin & ->)].
  - destruct (decide (k = ToHex a)) as [->|Hne].
    + right. exists a, txs. split; [apply list_elem_of_here|done].
    + left. unfold step in Hk. by rewrite lookup_insert_ne in Hk.
  - right. exists a', txs'. split; [by apply list_elem_of_further|done].
Qed.

Lemma fill_lookup_notin `{!Inj (=) (=) ToHex} order m0 a :
  a ∉ order.*1 -> fold_left step order m0 !! ToHex a = m0 !! ToHex a.
Proof.
  revert m0; induction order as [|[a' txs] order IH]; intros m0 Hnot;
    simpl in *; [done|].
  apply not_elem_of_cons in Hnot as [Hne Hnot].
  rewrite IH by done. unfold step. apply lookup_insert_ne.
  intros Heq. by apply (inj ToHex) in Heq.
Qed.

Lemma fill_lookup_in `{!Inj (=) (=) ToHex} order m0 a txs :
  NoDup order.*1 -> (a, txs) ∈ order ->
  fold_left step order m0 !! ToHex a
    = Some (makeTrans Tx Out rpcOutputTx nilOut txs).
Proof.
  revert m0; induction order as [|[a' txs'] order IH]; intros m0 Hnd Hin;
    simpl in *.
  - by apply elem_of_nil in Hin.
  - apply NoDup_cons in Hnd as [Hfresh Hnd].
    apply elem_of_cons in Hin as [[= <- <-]|Hin].
    + rewrite fill_lookup_notin by done. unfold step.
      apply lookup_insert_eq.
    + by apply IH.
Qed.

(** X11. The pool, by sender.  Whatever order Go ranges over the pool in,
    [GetTxPoolContent] returns nil and leaves in its result exactly one
    entry per sender of the pool, under the hex form of the sender's
    address: the list of [rpcOutputTx] of the sender's transactions, as
    many as there are and in the pool's order.  Nothing else is in the
    result.  ([ToHex] does not send two addresses to one string.) *)
Theorem GetTxPoolContent_by_sender `{!Inj (=) (=) ToHex}
    (data : gmap Address (list Tx)) (order : list (Address * list Tx)) :
  order ≡ₚ map_to_list data ->
  (GetTxPoolContent Tx Out ToHex rpcOutputTx nilOut order).2 = None /\
  (forall a,
     (GetTxPoolContent Tx Out ToHex rpcOutputTx nilOut order).1 !! ToHex a
       = fmap rpcOutputTx <$> data !! a) /\
  (forall k outs,
     (GetTxPoolContent Tx Out ToHex rpcOutputTx nilOut order).1 !! k
       = Some outs ->
     exists a txs,
       k = ToHex a /\ data !! a = Some txs /\
       length outs = length txs) /\
  (forall order',
     order' ≡ₚ map_to_list data ->
     GetTxPoolContent Tx Out ToHex rpcOutputTx nilOut order'
       = GetTxPoolContent Tx Out ToHex rpcOutputTx nilOut order).
Proof.
  intros Hperm. unfold GetTxPoolContent, fillContent. simpl.
  fold step.
  assert (forall order0 a,
            order0 ≡ₚ map_to_list data ->
            fold_left step order0 ∅ !! ToHex a
              = fmap rpcOutputTx <$> data !! a) as Hlookup.
  { intros order0 a Hp.
    destruct (data !! a) as [txs|] eqn:Ha; simpl.
    - rewrite (fill_lookup_in order0 ∅ a txs).
      + by rewrite makeTrans_eq.
      + rewrite Hp. apply NoDup_fst_map_to_list.
      + rewrite Hp. by apply elem_of_map_to_list.
    - rewrite fill_lookup_notin; [done|].
      intros Hin. apply list_elem_of_fmap in Hin as ([a' txs] & -> & Hin).
      rewrite Hp in Hin. apply elem_of_map_to_list in Hin.
      simpl in Ha. congruence. }
  split; [done|]. split; [by auto|]. split.
  - intros k outs Hk.
    pose proof Hk as Hk'.
    apply fill_lookup_Some in Hk' as [Hk'|(a & txs & Hin & ->)]; [done|].
    rewrite Hperm in Hin. apply elem_of_map_to_list in Hin.
    exists a, txs. split; [done|]. split; [done|].
    rewrite (Hlookup order a Hperm), Hin in Hk. simpl in Hk.
    injection Hk as <-. by rewrite length_fmap.
  - intros order' Hperm'. f_equal.
    apply map_eq. intros k.
    destruct (fold_left step order ∅ !! k) as [outs|] eqn:Hk.
    + pose proof Hk as Hk'.
      apply fill_lookup_Some in Hk' as [Hk'|(a & txs & Hin & ->)]; [done|].
      rewrite <- Hk. by rewrite !Hlookup.
    + destruct (fold_left step order' ∅ !! k) as [outs|] eqn:Hk'; [|done].
      pose proof Hk' as Hk''.
      apply fill_lookup_Some in Hk'' as [Hk''|(a & txs & Hin & ->)];
        [done|].
      rewrite <- Hk, <- Hk'. by rewrite !Hlookup.
Qed.

End DebugAPIFacts.

Lemma GetTxPoolContent_by_sender_witness :
  (GetTxPoolContent string string (pretty : N -> string) SampleDebug.output ""
     [(9%N, ["tx3"]); (7%N, ["tx1"; "tx2"])]).2 = None /\
  (forall a,
     (GetTxPoolContent string string (pretty : N -> string)
        SampleDebug.output ""
        [(9%N, ["tx3"]); (7%N, ["tx1"; "tx2"])]).1 !! pretty a
       = fmap SampleDebug.output <$> SampleDebug.pool !! a) /\
  (forall k outs,
     (GetTxPoolContent string string (pretty : N -> string)
        SampleDebug.output ""
        [(9%N, ["tx3"]); (7%N, ["tx1"; "tx2"])]).1 !! k = Some outs ->
     exists a txs,
       k = pretty a /\ SampleDebug.pool !! a = Some txs /\
       length outs = length txs) /\
  (forall order',
     order' ≡ₚ map_to_list SampleDebug.pool ->
     GetTxPoolContent string string (pretty : N -> string)
       SampleDebug.output "" order'
       = GetTxPoolContent string string (pretty : N -> string)
           SampleDebug.output "" [(9%N, ["tx3"]); (7%N, ["tx1"; "tx2"])]).
Proof.
  apply (GetTxPoolContent_by_sender string string (pretty : N -> string)
           SampleDebug.output "" SampleDebug.pool
           [(9%N, ["tx3"]); (7%N, ["tx1"; "tx2"])]).
  reflexivity.
Defined.

Section BlockAPIFacts.

Variables Chain Block : Type.
Variable getBlock : Chain -> Z -> Block + error0.
Variable Serialize : Block -> list N + error0.
Variable BytesToHex : list N -> string.
Variable Sdump : Block -> string.

(** X12. The two block methods.  [GetBlockRlp] and [PrintBlock] write their
    result only when they return nil: a call that returns an error leaves
    [*result] as it was.  [PrintBlock] fails exactly when [getBlock] fails,
    and then [GetBlockRlp] fails with the same error; so every height that
    [GetBlockRlp] serves, [PrintBlock] serves too, and the two results are
    the hex form of the serialization and the dump of one and the same
    block. *)
Theorem block_methods chain height result :
  (forall out err,
     GetBlockRlp Chain Block getBlock Serialize BytesToHex chain height result
       = (out, Some err) -> out = result) /\
  (forall out err,
     PrintBlock Chain Block getBlock Sdump chain height result
       = (out, Some err) ->
     out = result /\ getBlock chain height = inr err /\
     GetBlockRlp Chain Block getBlock Serialize BytesToHex chain height result
       = (result, Some err)) /\
  (forall out,
     GetBlockRlp Chain Block getBlock Serialize BytesToHex chain height result
       = (out, None) ->
     exists block blockRlp,
       getBlock chain height = inl block /\
       Serialize block = inl blockRlp /\
       out = BytesToHex blockRlp /\
       PrintBlock Chain Block getBlock Sdump chain height result
         = (Sdump block, None)).
Proof.
  unfold GetBlockRlp, PrintBlock. repeat split.
  - destruct (getBlock chain height) as [block|e]; [|congruence].
    destruct (Serialize block); congruence.
  - destruct (getBlock chain height); congruence.
  - destruct (getBlock chain height); congruence.
  - destruct (getBlock chain height); congruence.
  - intros out Hout.
    destruct (getBlock chain height) as [block|e]; [|done].
    destruct (Serialize block) as [rlp|e] eqn:Hser; [|done].
    injection Hout as <-. by exists block, rlp.
Qed.

End BlockAPIFacts.

Lemma block_methods_witness :
  (GetBlockRlp (list (list N)) (list N) SampleChain.getBlock
     SampleChain.Serialize SampleChain.BytesToHex SampleChain.chain (-1)
     "old").1 = "old" /\
  ("old" = "old" /\
   SampleChain.getBlock SampleChain.chain 7
     = inr (ErrExt "block not found") /\
   GetBlockRlp (list (list N)) (list N) SampleChain.getBlock
     SampleChain.Serialize SampleChain.BytesToHex SampleChain.chain 7 "old"
     = ("old", Some (ErrExt "block not found"))) /\
  (exists block blockRlp,
     SampleChain.getBlock SampleChain.chain 0 = inl block /\
     SampleChain.Serialize block = inl blockRlp /\
     "0x12" = SampleChain.BytesToHex blockRlp /\
     PrintBlock (list (list N)) (list N) SampleChain.getBlock
       SampleChain.Sdump SampleChain.chain 0 "old"
       = (SampleChain.Sdump block, None)).
Proof.
  split; [|split].
  - apply (proj1 (block_methods (list (list N)) (list N) SampleChain.getBlock
                    SampleChain.Serialize SampleChain.BytesToHex
                    SampleChain.Sdump SampleChain.chain (-1) "old")
             _ (ErrExt "cannot serialize")).
    vm_compute. reflexivity.
  - apply (proj1 (proj2 (block_methods (list (list N)) (list N)
                           SampleChain.getBlock SampleChain.Serialize
                           SampleChain.BytesToHex SampleChain.Sdump
                           SampleChain.chain 7 "old"))).
    vm_compute. reflexivity.
  - apply (proj2 (proj2 (block_methods (list (list N)) (list N)
                           SampleChain.getBlock SampleChain.Serialize
                           SampleChain.BytesToHex SampleChain.Sdump
                           SampleChain.chain 0 "old"))).
    vm_compute. reflexivity.
Defined.

(* ================================================================== *)
(** * The config of a node *)

Lemma Start_config env h n t n' t' r :
  Start env h n t = Some (n', t', r) -> config n' = config n.
Proof.
  intros Hs. destruct (server n) as [srv|] eqn:Hsrv.
  - rewrite (Start_running env h n t) in Hs by (by eexists).
    by injection Hs as <- _ _.
  - destruct r as [e|].
    + by apply Start_failure in Hs as (conf & _ & -> & _).
    + by apply Start_success in Hs as (_ & conf & _ & -> & _).
Qed.

Lemma Stop_config n t : config (Stop n t).1.1 = config n.
Proof.
  destruct (server n) as [srv|] eqn:Hsrv.
  - by rewrite (Stop_running_eq n t srv Hsrv).
  - by rewrite (Stop_idle n t Hsrv).
Qed.

(** X13. The config is kept.  No operation of the node moves its config
    pointer: after Register, Start, Stop or Restart, whatever they return,
    the node points to the cell [New] gave it and so, the heap being what
    it is, holds the same stored config. *)
Theorem config_is_kept env h n t :
  (forall s,
     config (Register n s).1 = config n /\
     storedConfig h (Register n s).1 = storedConfig h n) /\
  (forall n' t' r, Start env h n t = Some (n', t', r) ->
     config n' = config n /\ storedConfig h n' = storedConfig h n) /\
  (config (Stop n t).1.1 = config n /\
   storedConfig h (Stop n t).1.1 = storedConfig h n) /\
  (forall n' t' r, Restart env h n t = Some (n', t', r) ->
     config n' = config n /\ storedConfig h n' = storedConfig h n).
Proof.
  assert (forall n1 n2, config n1 = config n2 ->
            config n1 = config n2 /\
            storedConfig h n1 = storedConfig h n2) as Hstored.
  { intros n1 n2 Heq. split; [done|]. unfold storedConfig. by rewrite Heq. }
  split; [|split; [|split]].
  - intros s. apply Hstored. unfold Register. by destruct (server n).
  - intros n' t' r Hs. apply Hstored. by eapply Start_config.
  - apply Hstored, Stop_config.
  - intros n' t' r Hr. apply Hstored. unfold Restart in Hr.
    pose proof (Stop_config n t) as Hc.
    destruct (Stop n t) as [[n1 t1] [e|]]; simpl in Hc.
    + by injection Hr as <- _ _.
    + destruct (Start env h n1 t1) as [[[n2 t2] r2]|] eqn:Hs; [|done].
      apply Start_config in Hs.
      destruct r2; injection Hr as <- _ _; congruence.
Qed.

Lemma config_is_kept_witness :
  (config (Sample.afterStart [Sample.A; Sample.C]).1
     = config (Sample.nodeWith [Sample.A; Sample.C]) /\
   storedConfig Sample.heap (Sample.afterStart [Sample.A; Sample.C]).1
     = storedConfig Sample.heap (Sample.nodeWith [Sample.A; Sample.C])) /\
  (config
     (set_server
        (Some {| srvConfig := {| p2pTag := "p2p" |}; Protocols := [] |})
        (Stop (Sample.afterStart [Sample.A; Sample.C]).1 []).1.1)
     = config (Sample.afterStart [Sample.A; Sample.C]).1 /\
   storedConfig Sample.heap
     (set_server
        (Some {| srvConfig := {| p2pTag := "p2p" |}; Protocols := [] |})
        (Stop (Sample.afterStart [Sample.A; Sample.C]).1 []).1.1)
     = storedConfig Sample.heap (Sample.afterStart [Sample.A; Sample.C]).1).
Proof.
  split.
  - apply (proj1 (proj2 (config_is_kept Sample.env Sample.heap
                           (Sample.nodeWith [Sample.A; Sample.C]) []))
             _ (Sample.afterStart [Sample.A; Sample.C]).2 None).
    vm_compute. reflexivity.
  - apply (proj2 (proj2 (proj2 (config_is_kept Sample.env Sample.heap
                                  (Sample.afterStart [Sample.A; Sample.C]).1
                                  [])))
             _ ((Stop (Sample.afterStart [Sample.A; Sample.C]).1 []).1.2
                  ++ [EvServerStart
                        {| srvConfig := {| p2pTag := "p2p" |};
                           Protocols := [] |} None;
                      EvListen RawSocket "127.0.0.1:55027" None;
                      EvServe RawSocket;
                      EvNewHTTPServer ["localhost"] ["https://seele.example"];
                      EvHandleHTTP; EvListen HTTP "127.0.0.1:65027" None;
                      EvServe HTTP]) None).
    vm_compute. reflexivity.
Defined.
